(** * grobid_client.py: a shallow embedding of [GrobidClient]

    The development follows [src/grobid_client.py]: the constructor and the
    command-line block, the directory walk and the batching loop of
    [process], the worker pool of [process_batch], and [process_pdf] with its
    destination naming, its skip test and its retry on status 503.

    Python strings are [string]; the library string and path functions the
    client calls ([str.endswith], [ntpath.basename], [ntpath.dirname],
    [os.path.splitext], [os.path.join]) work on the list of characters.  The
    client is taken to run on a POSIX host: [os.sep] is "/" and [os.path] is
    [posixpath]. *)

From Stdlib Require Import ZArith Lia Ascii.
From stdpp Require Import base tactics option list strings gmap pretty.

Local Open Scope Z_scope.

(** ** Strings as lists of characters *)

Abbreviation chars := String.list_ascii_of_string.
Abbreviation text := String.string_of_list_ascii.

Definition slash : ascii := "/"%char.
Definition backslash : ascii := "\"%char.
Definition colon : ascii := ":"%char.
Definition dot : ascii := "."%char.

(** [s.startswith(pre)] on character lists. *)
Fixpoint startswith_l (pre l : list ascii) : bool :=
  match pre, l with
  | [], _ => true
  | _ :: _, [] => false
  | a :: pre', b :: l' => Ascii.eqb a b && startswith_l pre' l'
  end.

(** [s.endswith(suf)]. *)
Definition endswith (s suf : string) : bool :=
  startswith_l (rev (chars suf)) (rev (chars s)).



(** ** [ntpath]: Windows-style splitting, as CPython 3.8 writes it *)

(** Both separators of [ntpath]: "\" and "/". *)
Definition is_sep (c : ascii) : bool :=
  Ascii.eqb c slash || Ascii.eqb c backslash.

(** [normp.find(sep, 0)] on a list: index of the first separator. *)
Fixpoint find_sep (l : list ascii) : option nat :=
  match l with
  | [] => None
  | c :: l' => if is_sep c then Some 0%nat else S <$> find_sep l'
  end.

Definition head_is_sep (l : list ascii) : bool :=
  match l with c :: _ => is_sep c | [] => false end.

(** [ntpath.splitdrive]: a UNC share ("\\host\mount") or a drive letter with
    its colon is split off; anything else has the empty drive. *)
Definition splitdrive_l (p : list ascii) : list ascii * list ascii :=
  match p with
  | c0 :: c1 :: rest =>
      if is_sep c0 && is_sep c1 && negb (head_is_sep rest) then
        match find_sep rest with
        | None => ([], p)
        | Some i =>
            (* index = 2 + i; the second search starts at index + 1 *)
            match find_sep (drop (S i) rest) with
            | Some O => ([], p)
            | Some j => (take (2 + S i + j) p, drop (2 + S i + j) p)
            | None => (p, [])
            end
        end
      else if Ascii.eqb c1 colon then ([c0; c1], rest)
      else ([], p)
  | _ => ([], p)
  end.

(** The longest separator-free suffix, scanned from the end as the loop
    [while i and p[i-1] not in seps: i -= 1] does; the argument is the
    reversed path. *)
Fixpoint span_tail (r : list ascii) : list ascii * list ascii :=
  match r with
  | [] => ([], [])
  | c :: r' =>
      if is_sep c then ([], r)
      else let '(t, h) := span_tail r' in (c :: t, h)
  end.

(** [head.rstrip(seps)] on the reversed head. *)
Fixpoint lstrip_seps (r : list ascii) : list ascii :=
  match r with
  | c :: r' => if is_sep c then lstrip_seps r' else r
  | [] => []
  end.

(** [ntpath.split]: (drive + head, tail). *)
Definition ntpath_split_l (p : list ascii) : list ascii * list ascii :=
  let '(d, p') := splitdrive_l p in
  let '(rtail, rhead) := span_tail (rev p') in
  let head := rev rhead in
  let stripped := rev (lstrip_seps rhead) in
  (* head.rstrip(seps) or head *)
  let head' := match stripped with [] => head | _ => stripped end in
  (d ++ head', rev rtail).

Definition ntpath_basename (p : string) : string :=
  text (snd (ntpath_split_l (chars p))).

Definition ntpath_dirname (p : string) : string :=
  text (fst (ntpath_split_l (chars p))).

(** ** [posixpath]: [os.path.splitext] and [os.path.join] *)

(** [p.rfind(c)]: index of the last occurrence, [None] for Python's -1. *)
Fixpoint rfind (c : ascii) (p : list ascii) : option nat :=
  match p with
  | [] => None
  | x :: p' =>
      match rfind c p' with
      | Some i => Some (S i)
      | None => if Ascii.eqb x c then Some 0%nat else None
      end
  end.

(** [genericpath._splitext(p, "/", None, ".")]: the extension starts at the
    last dot, provided that dot lies in the last path component and some
    character other than a dot precedes it there. *)
Definition splitext_l (p : list ascii) : list ascii * list ascii :=
  let sepIndex := rfind slash p in
  match rfind dot p with
  | None => (p, [])
  | Some dotIndex =>
      let filenameIndex :=
        match sepIndex with Some i => S i | None => 0%nat end in
      if (filenameIndex <=? dotIndex)%nat then
        (* skip all leading dots *)
        if forallb (Ascii.eqb dot)
             (take (dotIndex - filenameIndex) (drop filenameIndex p))
        then (p, [])
        else (take dotIndex p, drop dotIndex p)
      else (p, [])
  end.

Definition splitext (p : string) : string * string :=
  let '(root, ext) := splitext_l (chars p) in (text root, text ext).

(** [posixpath.join(a, b)] with one component [b]. *)
Definition path_join (a b : string) : string :=
  if startswith_l [slash] (chars b) then b
  else if bool_decide (a = "") || endswith a "/" then a +:+ b
  else a +:+ "/" +:+ b.

(** [os.sep.join([directory_path, filename])]. *)
Definition sep_join (directory_path filename : string) : string :=
  directory_path +:+ "/" +:+ filename.

(** ** Python values, exceptions and results *)

(** The values the keyword arguments and option fields take. *)
Inductive pyval :=
  | PNone
  | PBool (b : bool)
  | PInt (z : Z)
  | PStr (s : string).

(** Truth value of a Python object, as [if x:] and [not x] test it. *)
Definition truthy (v : pyval) : bool :=
  match v with
  | PNone => false
  | PBool b => b
  | PInt z => negb (z =? 0)
  | PStr s => negb (bool_decide (s = ""))
  end.

Inductive exn :=
  | ConnectionError
  | NameError
  | ValueError
  | OSError
  | RecursionError
  | TransportError.

Inductive res (A : Type) :=
  | Ok (a : A)
  | Raise (e : exn).
Arguments Ok {A} a.
Arguments Raise {A} e.

(** ** Configuration and client object *)

(** The keys of config.json the client reads, with the types the
    configuration interface gives them. *)
Record Config := {
  grobid_server : string;
  grobid_port : option Z;
  batch_size : Z;
  cfg_number_of_processes : Z;
  sleep_time : Z;
  coordinates : string;
}.

(** The instance attributes of [GrobidClient]. *)
Record GrobidClient := {
  config : Config;
  api_url : string;
  number_of_processes : pyval;
  generate_ids : pyval;
  consolidate_header : pyval;
  consolidate_citations : pyval;
  force : pyval;
  tei_coordinates : pyval;
  service : option string;
  output_directory : option string;
}.

(** [self.api_url = v]. *)
Definition set_api_url (self : GrobidClient) (v : string) : GrobidClient :=
  {| config := config self; api_url := v;
     number_of_processes := number_of_processes self;
     generate_ids := generate_ids self;
     consolidate_header := consolidate_header self;
     consolidate_citations := consolidate_citations self;
     force := force self; tei_coordinates := tei_coordinates self;
     service := service self; output_directory := output_directory self |}.

(** [self.service = sv; self.output_directory = od], the first two lines of
    [process]. *)
Definition set_run (self : GrobidClient) (sv : string) (od : option string)
  : GrobidClient :=
  {| config := config self; api_url := api_url self;
     number_of_processes := number_of_processes self;
     generate_ids := generate_ids self;
     consolidate_header := consolidate_header self;
     consolidate_citations := consolidate_citations self;
     force := force self; tei_coordinates := tei_coordinates self;
     service := Some sv; output_directory := od |}.

(** The f-string rendering of [self.service]. *)
Definition service_str (self : GrobidClient) : string :=
  match service self with Some sv => sv | None => "None" end.

(** [_is_alive]: one GET on the status URL; [get_status] is the status code
    the server answers for a URL. *)
Definition _is_alive (get_status : string → Z) (api : string) : bool :=
  let status_url := api +:+ "/api/isalive" in
  bool_decide (get_status status_url = 200).

(** [GrobidClient.__init__], from the loaded configuration on.  [kwargs] is
    the keyword dictionary; [kwargs.get(k, d)] is [default d (kwargs !! k)].
    The closing [super().__init__(base_url)] belongs to client.py and sets
    none of the attributes below. *)
Definition init (cfg : Config) (get_status : string → Z)
    (kwargs : gmap string pyval) : res GrobidClient :=
  let api := "http://" +:+ grobid_server cfg in
  let api :=
    match grobid_port cfg with
    | Some port => if port =? 0 then api else api +:+ ":" +:+ pretty port
    | None => api
    end in
  if negb (_is_alive get_status api) then Raise ConnectionError
  else Ok
    {| config := cfg; api_url := api;
       number_of_processes :=
         default (PInt (cfg_number_of_processes cfg))
                 (kwargs !! "number_of_processes");
       generate_ids := default (PBool true) (kwargs !! "generate_ids");
       consolidate_header :=
         default (PBool true) (kwargs !! "consolidate_header");
       consolidate_citations :=
         default (PBool true) (kwargs !! "consolidate_citations");
       force := default (PBool true) (kwargs !! "force");
       tei_coordinates := default (PBool true) (kwargs !! "tei_coordinates");
       service := None; output_directory := None |}.

(** [_prepare_post_data]: one form field per enabled option. *)
Definition _prepare_post_data (self : GrobidClient) : gmap string string :=
  let data : gmap string string := ∅ in
  let data := if truthy (generate_ids self)
              then <["generate_ids" := "1"]> data else data in
  let data := if truthy (consolidate_header self)
              then <["consolidate_header" := "1"]> data else data in
  let data := if truthy (consolidate_citations self)
              then <["consolidate_citations" := "1"]> data else data in
  let data := if truthy (tei_coordinates self)
              then <["tei_coordinates" := coordinates (config self)]> data
              else data in
  data.

(** ** The command-line block *)

(** The namespace [parser.parse_args()] returns.  How argparse reads the
    argument vector is the library's business; the block is modelled from
    the namespace on. *)
Record Namespace := {
  ns_service : string;
  ns_input : option string;
  ns_output : option string;
  ns_config : string;
  ns_n : pyval;
  ns_generateIDs : bool;
  ns_consolidate_header : bool;
  ns_consolidate_citations : bool;
  ns_force : bool;
  ns_teiCoordinates : bool;
}.

(** The namespace of a command line that names the positional [service] and
    none of the optional arguments: the defaults of the [add_argument] calls,
    [default=None] for the two directories, "./config.json", [default=10],
    and [False] for every [action='store_true'] flag. *)
Definition default_namespace (sv : string) : Namespace :=
  {| ns_service := sv; ns_input := None; ns_output := None;
     ns_config := "./config.json"; ns_n := PInt 10;
     ns_generateIDs := false; ns_consolidate_header := false;
     ns_consolidate_citations := false; ns_force := false;
     ns_teiCoordinates := false |}.

(** The module-level [n] the command-line block binds: 10, replaced by
    [int(args.n)] unless that raises [ValueError].  [args.n] is the integer
    default or the string read from the command line; [int_of_str] is what
    the builtin [int] reads from a string, [None] where it raises
    [ValueError]. *)
Definition main_n (int_of_str : string → option Z) (args : Namespace) : Z :=
  let n := 10 in
  match ns_n args with
  | PNone => n
  | PInt k => k
  | PBool b => if b then 1 else 0
  | PStr v => match int_of_str v with Some k => k | None => n end
  end.

(** The [options] dictionary passed as keyword arguments. *)
Definition main_options (int_of_str : string → option Z) (args : Namespace)
  : gmap string pyval :=
  <["number_of_processes" := PInt (main_n int_of_str args)]>
  (<["generate_ids" := PBool (ns_generateIDs args)]>
  (<["consolidate_header" := PBool (ns_consolidate_header args)]>
  (<["consolidate_citations" := PBool (ns_consolidate_citations args)]>
  (<["force" := PBool (ns_force args)]>
  (<["tei_coordinates" := PBool (ns_teiCoordinates args)]> ∅))))).

(** [client = GrobidClient(config_path=args.config, **options)]; [cfg] is
    what the configuration file at [args.config] holds. *)
Definition main_client (cfg : Config) (get_status : string → Z)
    (int_of_str : string → option Z) (args : Namespace) : res GrobidClient :=
  init cfg get_status (main_options int_of_str args).

(** ** The world a worker acts on *)

(** What [self.post] sends: the target URL, the multipart file entry
    [(name, content, content type, headers)], the form data and the request
    headers. *)
Record Request := {
  req_url : string;
  req_input_name : string;
  req_input_body : string;
  req_input_type : string;
  req_input_headers : gmap string string;
  req_data : gmap string string;
  req_headers : gmap string string;
}.

(** The observable actions of a worker and of the scheduler, one constructor
    per [print], [post], [sleep] and file write of the source. *)
Inductive event :=
  | EvSkip (filename : string)
  | EvProcessing (pdf_file_path : string)
  | EvPost (r : Request)
  | EvSleep (seconds : Z)
  | EvFailed (status_code : Z)
  | EvWrite (filename body : string)
  | EvWriteFailed (filename : string).

(** Regular files by path with their content, the paths that cannot be
    opened for writing, and the actions so far, oldest first. *)
Record World := {
  files : gmap string string;
  readonly : gset string;
  trace : list event;
}.

Definition log (e : event) (w : World) : World :=
  {| files := files w; readonly := readonly w; trace := trace w ++ [e] |}.

(** [os.path.isfile]. *)
Definition isfile (w : World) (path : string) : bool :=
  bool_decide (is_Some (files w !! path)).

(** [io.open(filename, "w")] followed by [write(body)]. *)
Definition write_file (filename body : string) (w : World) : World :=
  {| files := <[filename := body]> (files w); readonly := readonly w;
     trace := trace w ++ [EvWrite filename body] |}.

(** The requests among the actions. *)
Definition posts (t : list event) : list Request :=
  omap (λ e, match e with EvPost r => Some r | _ => None end) t.

(** The remote service: it answers a request, knowing the requests it has
    seen before, with a status code and a body, or the transport fails. *)
Definition Server := list Request → Request → res (Z * string).

(** Modelled from the spec: [ApiClient.post] of client.py, which is not among
    the sources.  The transport performs a single HTTP request given a URL,
    payload and headers, and returns the response and its status code, or
    propagates a transport error. *)
Definition post (srv : Server) (r : Request) (w : World)
  : res (string * Z) * World :=
  match srv (posts (trace w)) r with
  | Ok (status_code, body) => (Ok (body, status_code), log (EvPost r) w)
  | Raise e => (Raise e, log (EvPost r) w)
  end.

(** ** [process_pdf] *)

(** The destination path [filename] computed at the top of [process_pdf]. *)
Definition destination (self : GrobidClient) (pdf_file_path : string)
  : string :=
  let pdf_file_name := ntpath_basename pdf_file_path in
  match output_directory self with
  | Some od =>
      path_join od (fst (splitext pdf_file_name) +:+ ".tei.xml")
  | None =>
      path_join (ntpath_dirname pdf_file_path)
                (fst (splitext pdf_file_name) +:+ ".tei.xml")
  end.

(** [process_pdf] returns the client after the call (its attributes are
    assigned to), the world, and [None] or the exception that escapes.
    The retry on 503 is a recursive call, so the function is defined by
    recursion on [depth], a bound on the nested [process_pdf] frames; a
    call that would need more of them is cut off with [RecursionError].
    The interpreter's own limit also counts the frames of what
    [process_pdf] calls, so it may strike inside the last frame rather than
    on entering the next one; that is not modelled. *)
Fixpoint process_pdf (depth : nat) (srv : Server) (self : GrobidClient)
    (pdf_file_path : string) (w : World) : res unit * GrobidClient * World :=
  match depth with
  | O => (Raise RecursionError, self, w)
  | S depth' =>
      let filename := destination self pdf_file_path in
      if negb (truthy (force self)) && isfile w filename then
        (Ok tt, self, log (EvSkip filename) w)
      else
        let w := log (EvProcessing pdf_file_path) w in
        match files w !! pdf_file_path with
        | None => (Raise OSError, self, w)
        | Some file =>
            let self :=
              set_api_url self
                (api_url self +:+ "/api/" +:+ service_str self) in
            let data := _prepare_post_data self in
            let r :=
              {| req_url := api_url self;
                 req_input_name := pdf_file_path;
                 req_input_body := file;
                 req_input_type := "application/pdf";
                 req_input_headers := {["Expires" := "0"]};
                 req_data := data;
                 req_headers := {["Accept" := "text/plain"]} |} in
            match post srv r w with
            | (Raise e, w) => (Raise e, self, w)
            | (Ok (response, status_code), w) =>
                if status_code =? 503 then
                  let w := log (EvSleep (sleep_time (config self))) w in
                  process_pdf depth' srv self pdf_file_path w
                else if negb (status_code =? 200) then
                  (Ok tt, self, log (EvFailed status_code) w)
                else if bool_decide (filename ∈ readonly w) then
                  (Ok tt, self, log (EvWriteFailed filename) w)
                else (Ok tt, self, write_file filename response w)
            end
        end
  end.

(** ** The directory walk *)

(** A directory tree as [os.walk] sees it: regular files and directories
    with their entries in [scandir] order.  (A symbolic link to a directory
    only adds to [dirnames], which [process] ignores, and is not descended
    into; such entries are left out of the tree.) *)
#[warnings="-register-all"]
Inductive node :=
  | File
  | Dir (entries : list (string * node)).

Definition is_dir (nd : node) : bool :=
  match nd with Dir _ => true | File => false end.

(** [os.walk(top)], top-down, without an [onerror] handler: a directory
    yields [(top, dirnames, filenames)] and then the walks of its
    sub-directories; a [top] that cannot be scanned yields nothing. *)
Fixpoint walk_node (top : string) (nd : node)
  : list (string * list string * list string) :=
  match nd with
  | File => []
  | Dir entries =>
      (top,
       fst <$> filter (λ e, is_dir (snd e) = true) entries,
       fst <$> filter (λ e, is_dir (snd e) = false) entries)
      :: flat_map (λ e, match e with
                        | (name, child) => walk_node (path_join top name) child
                        end) entries
  end.

(** The file system under a path: [None] when nothing exists there. *)
Definition FileSystem := string → option node.

Definition os_walk (fs : FileSystem) (top : string)
  : list (string * list string * list string) :=
  match fs top with
  | Some nd => walk_node top nd
  | None => []
  end.

(** ** [process_batch] and [process] *)

(** One worker pool: its size, the client whose bound method
    [self.process_pdf] is submitted, and the submitted paths in order. *)
Record Pool := {
  max_workers : Z;
  pool_self : GrobidClient;
  submitted : list string;
}.

(** The scheduler threads the pools it has run and may stop on an
    exception. *)
Definition Sched (A : Type) : Type := list Pool → res A * list Pool.

Definition ret {A} (a : A) : Sched A := λ pools, (Ok a, pools).

Definition bind {A B} (m : Sched A) (f : A → Sched B) : Sched B :=
  λ pools,
    match m pools with
    | (Ok a, pools') => f a pools'
    | (Raise e, pools') => (Raise e, pools')
    end.

Notation "x ←ₛ m ; f" := (bind m (λ x, f))
  (at level 100, m at next level, right associativity).

(** [process_batch].  The name [n] is not a parameter or an attribute: it is
    looked up in the module globals, where only the command-line block binds
    it ([None]: unbound, as when the module is imported).
    [ProcessPoolExecutor] refuses a size that is not positive.  Leaving the
    [with] block waits for the submitted units. *)
Definition process_batch (n : option Z) (self : GrobidClient)
    (pdf_files_paths : list string) : Sched unit :=
  λ pools,
    match n with
    | None => (Raise NameError, pools)
    | Some k =>
        if k <=? 0 then (Raise ValueError, pools)
        else (Ok tt, pools ++ [{| max_workers := k; pool_self := self;
                                  submitted := pdf_files_paths |}])
    end.

(** The inner loop of [process] over the file names of one directory;
    [pdf_files_paths] is the buffer. *)
Fixpoint for_filenames (n : option Z) (self : GrobidClient)
    (batch_size_pdf : Z) (directory_path : string) (filenames : list string)
    (pdf_files_paths : list string) : Sched (list string) :=
  match filenames with
  | [] => ret pdf_files_paths
  | filename :: rest =>
      if endswith filename ".pdf" || endswith filename ".PDF" then
        let pdf_files_paths :=
          pdf_files_paths ++ [sep_join directory_path filename] in
        if Z.of_nat (length pdf_files_paths) =? batch_size_pdf then
          _ ←ₛ process_batch n self pdf_files_paths;
          for_filenames n self batch_size_pdf directory_path rest []
        else
          for_filenames n self batch_size_pdf directory_path rest
            pdf_files_paths
      else
        for_filenames n self batch_size_pdf directory_path rest
          pdf_files_paths
  end.

(** The outer loop over the triples of the walk. *)
Fixpoint for_walk (n : option Z) (self : GrobidClient) (batch_size_pdf : Z)
    (triples : list (string * list string * list string))
    (pdf_files_paths : list string) : Sched (list string) :=
  match triples with
  | [] => ret pdf_files_paths
  | (directory_path, _, filenames) :: rest =>
      pdf_files_paths ←ₛ
        for_filenames n self batch_size_pdf directory_path filenames
          pdf_files_paths;
      for_walk n self batch_size_pdf rest pdf_files_paths
  end.

(** [process]: the client after the call, what escapes, and the pools run. *)
Definition process (n : option Z) (fs : FileSystem) (self : GrobidClient)
    (sv input_directory : string) (od : option string)
  : GrobidClient * (res unit * list Pool) :=
  let self := set_run self sv od in
  let batch_size_pdf := batch_size (config self) in
  (self,
   (pdf_files_paths ←ₛ
      for_walk n self batch_size_pdf (os_walk fs input_directory) [];
    if (0 <? length pdf_files_paths)%nat
    then process_batch n self pdf_files_paths
    else ret tt) []).

(** The paths [process] appends to its buffer, in traversal order. *)
Definition matching (filename : string) : bool :=
  endswith filename ".pdf" || endswith filename ".PDF".

Definition discovered (triples : list (string * list string * list string))
  : list string :=
  flat_map (λ t, match t with
                 | (directory_path, _, filenames) =>
                     sep_join directory_path <$> filter (λ f, matching f = true) filenames
                 end) triples.

(** ** Execution of the pools *)

(** What happens while the pools of a run execute.  The scheduler opens the
    pool of batch [k], submits its units one by one and leaves the [with]
    block; workers pick queued units up and finish them.  Unit [i] of batch
    [k] is the [i]-th submitted path. *)
Inductive action :=
  | AOpen (k : nat) (size : Z)
  | ASubmit (k i : nat) (path : string)
  | AStart (k i : nat)
  | ADone (k i : nat) (r : res unit)
  | AClose (k : nat).

(** The open pool: the index of the next path to submit, the units waiting
    for a worker and the units a worker is running. *)
Record Active := {
  next : nat;
  queued : list nat;
  running : list nat;
}.

Record Run := {
  batch_no : nat;
  current : option Active;
  world : World;
  history : list action;
}.

Definition start_run (w : World) : Run :=
  {| batch_no := 0; current := None; world := w; history := [] |}.

(** The scheduling choices: which of the enabled actions happens next. *)
Inductive choice :=
  | COpen
  | CSubmit
  | CStart
  | CDone (i : nat)
  | CClose.

(** One action of the run of [plan], the pools [process] runs in order;
    [None] when the chosen action is not enabled.
    - [COpen]: [process_batch] is entered for the next batch
      ([with ProcessPoolExecutor(max_workers=n) as executor]);
    - [CSubmit]: one iteration of the [for] loop, [executor.submit];
    - [CStart]: an idle worker takes the oldest queued unit; at most
      [max_workers] units run at a time;
    - [CDone i]: the call [process_pdf(path)] of a running unit returns or
      raises, on the worker's own copy of the client, which is dropped; the
      unit's effects on the world are applied here, at once;
    - [CClose]: the [with] block is left, which waits for every submitted
      unit (shutdown with wait), and [process_batch] returns. *)
Definition step (depth : nat) (srv : Server) (plan : list Pool) (c : choice)
    (s : Run) : option Run :=
  p ← plan !! batch_no s;
  match c, current s with
  | COpen, None =>
      Some {| batch_no := batch_no s;
              current := Some {| next := 0; queued := []; running := [] |};
              world := world s;
              history := history s ++ [AOpen (batch_no s) (max_workers p)] |}
  | CSubmit, Some a =>
      path ← submitted p !! next a;
      Some {| batch_no := batch_no s;
              current := Some {| next := S (next a);
                                 queued := queued a ++ [next a];
                                 running := running a |};
              world := world s;
              history := history s ++ [ASubmit (batch_no s) (next a) path] |}
  | CStart, Some a =>
      match queued a with
      | i :: q =>
          if Z.of_nat (length (running a)) <? max_workers p then
            Some {| batch_no := batch_no s;
                    current := Some {| next := next a; queued := q;
                                       running := running a ++ [i] |};
                    world := world s;
                    history := history s ++ [AStart (batch_no s) i] |}
          else None
      | [] => None
      end
  | CDone i, Some a =>
      if bool_decide (i ∈ running a) then
        path ← submitted p !! i;
        match process_pdf depth srv (pool_self p) path (world s) with
        | (r, _, w') =>
            Some {| batch_no := batch_no s;
                    current :=
                      Some {| next := next a; queued := queued a;
                              running := filter (λ j, j ≠ i) (running a) |};
                    world := w';
                    history := history s ++ [ADone (batch_no s) i r] |}
        end
      else None
  | CClose, Some a =>
      if bool_decide (next a = length (submitted p))
         && bool_decide (queued a = []) && bool_decide (running a = [])
      then
        Some {| batch_no := S (batch_no s); current := None;
                world := world s;
                history := history s ++ [AClose (batch_no s)] |}
      else None
  | _, _ => None
  end.

(** A schedule: the choices of a run, in order. *)
Fixpoint exec (depth : nat) (srv : Server) (plan : list Pool)
    (cs : list choice) (s : Run) : option Run :=
  match cs with
  | [] => Some s
  | c :: cs' => s' ← step depth srv plan c s; exec depth srv plan cs' s'
  end.

(** The schedule that runs the units of a pool one after the other. *)
Definition one_by_one (p : Pool) : list choice :=
  [COpen] ++ replicate (length (submitted p)) CSubmit
  ++ flat_map (λ i, [CStart; CDone i]) (seq 0 (length (submitted p)))
  ++ [CClose].

Definition sequential (plan : list Pool) : list choice :=
  flat_map one_by_one plan.

(** Every unit of batch [k] has reached a terminal state within [h]. *)
Definition drained (plan : list Pool) (k : nat) (h : list action) : Prop :=
  ∀ p i, plan !! k = Some p → (i < length (submitted p))%nat →
         ∃ r, ADone k i r ∈ h.

(** ** Files of a tree *)



(** The positions [lo, hi) of a list. *)
Definition slice {A} (lo hi : nat) (l : list A) : list A :=
  take (hi - lo) (drop lo l).

(** The base name without its extension, as [process_pdf] computes it:
    [os.path.splitext(ntpath.basename(pdf_file_path))[0]]. *)
Definition stem (pdf_file_path : string) : string :=
  fst (splitext (ntpath_basename pdf_file_path)).

(** What [os.path.join(a, b)] puts before a [b] that does not start with
    "/": [a] itself when it is empty or ends in "/", and [a] followed by
    "/" otherwise. *)
Definition dir_prefix (a : string) : string :=
  if bool_decide (a = "") || endswith a "/" then a else a +:+ "/".

(** The directory [process_pdf] joins the output name to: the output
    directory, or else [ntpath.dirname(pdf_file_path)]. *)
Definition output_dir (self : GrobidClient) (pdf_file_path : string)
  : string :=
  match output_directory self with
  | Some od => od
  | None => ntpath_dirname pdf_file_path
  end.

(** ** Invariants of the loops and of the run *)

(** What the loops of [process] keep true: the paths seen so far are the
    pools' paths followed by the buffer, and, for a positive batch size,
    every pool is full and the buffer is not. *)
Definition gathered (B : Z) (pools : list Pool) (buf all : list string)
  : Prop :=
  all = concat (submitted <$> pools) ++ buf ∧
  (0 < B →
   Forall (λ p, Z.of_nat (length (submitted p)) = B) pools ∧
   Z.of_nat (length buf) < B).

(** What has to hold of the history [h] before the action [e] may happen:
    a unit of batch [k+1] is submitted, and batch [k] is closed, only once
    batch [k] is drained. *)
Definition barrier (plan : list Pool) (e : action) (h : list action) : Prop :=
  match e with
  | ASubmit (S k) _ _ => drained plan k h
  | AClose k => drained plan k h
  | _ => True
  end.

Definition well_ordered (plan : list Pool) (h : list action) : Prop :=
  ∀ t e, h !! t = Some e → barrier plan e (take t h).

(** The units of the open pool submitted so far are waiting, running or
    done. *)
Definition accounted (plan : list Pool) (s : Run) : Prop :=
  match current s with
  | None => True
  | Some a =>
      ∀ i, (i < next a)%nat →
        i ∈ queued a ∨ i ∈ running a ∨ ∃ r, ADone (batch_no s) i r ∈ history s
  end.

Definition run_inv (plan : list Pool) (s : Run) : Prop :=
  well_ordered plan (history s) ∧
  (∀ k, (k < batch_no s)%nat → drained plan k (history s)) ∧
  accounted plan s.

(** The open pool, if there is one, is a pool of the plan, and the units
    waiting or running are among those submitted so far. *)
Definition in_bounds (plan : list Pool) (s : Run) : Prop :=
  match current s with
  | None => (batch_no s ≤ length plan)%nat
  | Some a =>
      ∃ p, plan !! batch_no s = Some p ∧
           (next a ≤ length (submitted p))%nat ∧
           Forall (λ i, (i < next a)%nat) (queued a) ∧
           Forall (λ i, (i < next a)%nat) (running a)
  end.

(** ** Statements the code does not satisfy *)

(** The claim as the specification words it: distinct inputs of one run have
    distinct destinations. *)
Definition destinations_are_unique : Prop :=
  ∀ fs input self p q,
    p ∈ discovered (os_walk fs input) → q ∈ discovered (os_walk fs input) →
    p ≠ q → destination self p ≠ destination self q.

(** The same with no output directory configured. *)
Definition destinations_are_unique_beside_inputs : Prop :=
  ∀ fs input self p q,
    output_directory self = None →
    p ∈ discovered (os_walk fs input) → q ∈ discovered (os_walk fs input) →
    p ≠ q → destination self p ≠ destination self q.


(** The claim as the specification words it: a root that does not exist or
    is not a directory makes [process] raise. *)
Definition invalid_root_raises : Prop :=
  ∀ n fs self sv input od,
    fs input = None ∨ fs input = Some File →
    ∃ e, fst (snd (process n fs self sv input od)) = Raise e.

(** ** Definitions for the further properties *)

(** The path of the request: "/api/<service>". *)
Definition endpoint (self : GrobidClient) : string :=
  "/api/" +:+ service_str self.


(** The sleeps among the actions. *)
Definition sleeps (t : list event) : list Z :=
  omap (λ e, match e with EvSleep s => Some s | _ => None end) t.

(** [process_pdf] goes past its skip test. *)
Definition not_skipped (self : GrobidClient) (path : string) (w : World)
  : Prop :=
  negb (truthy (force self)) && isfile w (destination self path) = false.

(** The first attempt of a call that is not skipped and finds its input. *)
Definition first_request (self : GrobidClient) (path file : string)
  : Request :=
  {| req_url := api_url self +:+ endpoint self;
     req_input_name := path; req_input_body := file;
     req_input_type := "application/pdf";
     req_input_headers := {["Expires" := "0"]};
     req_data := _prepare_post_data self;
     req_headers := {["Accept" := "text/plain"]} |}.


(** A pool as [process_batch] makes it for the client [self] when the name
    [n] is bound as given. *)
Definition made_by (n : option Z) (self : GrobidClient) (p : Pool) : Prop :=
  n = Some (max_workers p) ∧ 0 < max_workers p ∧ pool_self p = self ∧
  submitted p ≠ [].

(** What [process_batch] raises for a pool size it cannot use. *)
Definition pool_error (n : option Z) : exn :=
  match n with None => NameError | Some _ => ValueError end.

(** The name [n] is unbound or not positive. *)
Definition no_pool_size (n : option Z) : Prop :=
  n = None ∨ ∃ k, n = Some k ∧ k ≤ 0.

(** A name free of both separators. *)
Definition plain_name (name : string) : bool :=
  forallb (λ c, negb (is_sep c)) (chars name).

(** A directory path that [ntpath] reads as it stands: not empty, no
    trailing separator, no leading double separator and no colon in second
    place. *)
Definition plain_directory (d : string) : bool :=
  match chars d with
  | [] => false
  | [c0] => negb (is_sep c0)
  | c0 :: c1 :: _ =>
      negb (is_sep c0 && is_sep c1) && negb (Ascii.eqb c1 colon)
  end
  && match rev (chars d) with
     | c :: _ => negb (is_sep c)
     | [] => false
     end.

(** The base URL [__init__] builds: the port is left out when the
    configuration gives none, or 0. *)
Definition api_base (cfg : Config) : string :=
  match grobid_port cfg with
  | Some port =>
      if port =? 0 then "http://" +:+ grobid_server cfg
      else ("http://" +:+ grobid_server cfg) +:+ ":" +:+ pretty port
  | None => "http://" +:+ grobid_server cfg
  end.

(** ** Sample data *)

Module Sample.

Definition cfg : Config :=
  {| grobid_server := "localhost"; grobid_port := Some 8070;
     batch_size := 2; cfg_number_of_processes := 10; sleep_time := 5;
     coordinates := "persName,figure" |}.

(** A server that is up. *)
Definition up : string → Z := λ _, 200.

(** The client [GrobidClient()] builds, no keyword argument given. *)
Definition fresh : GrobidClient :=
  {| config := cfg; api_url := "http://localhost:8070";
     number_of_processes := PInt 10;
     generate_ids := PBool true; consolidate_header := PBool true;
     consolidate_citations := PBool true; force := PBool true;
     tei_coordinates := PBool true;
     service := None; output_directory := None |}.

(** The same client inside [process("processFulltextDocument", _, None)]. *)
Definition client : GrobidClient :=
  set_run fresh "processFulltextDocument" None.

(** ... with [force=False]. *)
Definition careful : GrobidClient :=
  {| config := cfg; api_url := "http://localhost:8070";
     number_of_processes := PInt 10;
     generate_ids := PBool true; consolidate_header := PBool true;
     consolidate_citations := PBool true; force := PBool false;
     tei_coordinates := PBool true;
     service := Some "processFulltextDocument";
     output_directory := None |}.

(** ... and with an output directory. *)
Definition collecting : GrobidClient :=
  set_run fresh "processFulltextDocument" (Some "out").

(** Built by an importing program with [number_of_processes=4]. *)
Definition four : GrobidClient :=
  {| config := cfg; api_url := "http://localhost:8070";
     number_of_processes := PInt 4;
     generate_ids := PBool true; consolidate_header := PBool true;
     consolidate_citations := PBool true; force := PBool true;
     tei_coordinates := PBool true;
     service := None; output_directory := None |}.

Definition tree : node :=
  Dir [("a.pdf", File);
       ("sub", Dir [("b.PDF", File); ("c.Pdf", File); ("d.txt", File)]);
       ("e.pdf", File)].

(** Two directories holding a file of the same name. *)
Definition twins : node :=
  Dir [("a", Dir [("x.pdf", File)]); ("b", Dir [("x.pdf", File)])].

Definition fs : FileSystem :=
  λ p, if bool_decide (p = "in") then Some tree
       else if bool_decide (p = "twins") then Some twins
       else if bool_decide (p = "in/a.pdf") then Some File
       else None.

Definition disk : World :=
  {| files := {["in/a.pdf" := "%PDF-a"]}; readonly := ∅; trace := [] |}.

(** The output of an earlier run is already there. *)
Definition disk_done : World :=
  {| files := <["in/a.tei.xml" := "<old/>"]> {["in/a.pdf" := "%PDF-a"]};
     readonly := ∅; trace := [] |}.

Definition disk3 : World :=
  {| files := <["in/a.pdf" := "%PDF-a"]>
              (<["in/e.pdf" := "%PDF-e"]> {["in/sub/b.PDF" := "%PDF-b"]});
     readonly := ∅; trace := [] |}.

(** A gateway that answers 503 twice and 200 from then on. *)
Definition busy_twice : Server :=
  λ seen _, if (length seen <? 2)%nat then Ok (503, "")
            else Ok (200, "<TEI/>").

(** A gateway that always answers 200. *)
Definition ready : Server := λ _ _, Ok (200, "<TEI/>").

(** A gateway that must not be reached: the transport fails. *)
Definition unreachable : Server := λ _ _, Raise TransportError.

(** The namespace of [processFulltextDocument --input in]. *)
Definition cli_args : Namespace :=
  {| ns_service := "processFulltextDocument"; ns_input := Some "in";
     ns_output := None; ns_config := "./config.json"; ns_n := PInt 10;
     ns_generateIDs := false; ns_consolidate_header := false;
     ns_consolidate_citations := false; ns_force := false;
     ns_teiCoordinates := false |}.

(** The client the command-line block builds from [cli_args]. *)
Definition cli_client : GrobidClient :=
  {| config := cfg; api_url := "http://localhost:8070";
     number_of_processes := PInt 10;
     generate_ids := PBool false; consolidate_header := PBool false;
     consolidate_citations := PBool false; force := PBool false;
     tei_coordinates := PBool false;
     service := None; output_directory := None |}.

(** The pools of the sample run: two batches. *)
Definition plan : list Pool :=
  snd (snd (process (Some 4) fs fresh
              "processFulltextDocument" "in" None)).

(** A schedule in which the second unit of the first batch finishes
    before the first one. *)
Definition schedule : list choice :=
  [COpen; CSubmit; CSubmit; CStart; CStart; CDone 1; CDone 0; CClose;
   COpen; CSubmit; CStart; CDone 0; CClose].

End Sample.

(** ** More sample data *)

(** The destination cannot be opened for writing. *)
Definition disk_locked : World :=
  {| files := {["in/a.pdf" := "%PDF-a"]}; readonly := {["in/a.tei.xml"]};
     trace := [] |}.

(** The sample client with [batch_size] 0 in its configuration. *)
Definition unbatched : GrobidClient :=
  {| config := {| grobid_server := "localhost"; grobid_port := None;
                  batch_size := 0; cfg_number_of_processes := 10;
                  sleep_time := 5; coordinates := "" |};
     api_url := "http://localhost";
     number_of_processes := PInt 10;
     generate_ids := PBool true; consolidate_header := PBool true;
     consolidate_citations := PBool true; force := PBool true;
     tei_coordinates := PBool true;
     service := None; output_directory := None |}.

(** One directory holding two files whose names differ in the extension
    alone. *)
Definition cases : FileSystem :=
  λ p, if bool_decide (p = "in")
       then Some (Dir [("x.pdf", File); ("x.PDF", File)])
       else None.

Ltac in_list :=
  solve [repeat first [apply list_elem_of_here | apply list_elem_of_further]].

(** ** Sanity checks of the embedding *)

Example basename_posix : ntpath_basename "root/sub/paper.pdf" = "paper.pdf".
Proof. reflexivity. Qed.

Example basename_backslash : ntpath_basename "root/a\b.pdf" = "b.pdf".
Proof. reflexivity. Qed.

Example dirname_posix : ntpath_dirname "root/sub/paper.pdf" = "root/sub".
Proof. reflexivity. Qed.

Example dirname_drive : ntpath_dirname "c:/paper.pdf" = "c:/".
Proof. reflexivity. Qed.

Example dirname_unc :
  ntpath_dirname "//host/share/d/paper.pdf" = "//host/share/d".
Proof. reflexivity. Qed.

Example splitext_pdf : splitext "paper.v2.pdf" = ("paper.v2", ".pdf").
Proof. reflexivity. Qed.

Example splitext_hidden : splitext ".pdf" = (".pdf", "").
Proof. reflexivity. Qed.

Example splitext_dir_dot : splitext "a.b/c" = ("a.b/c", "").
Proof. reflexivity. Qed.

Example join_plain : path_join "out" "x.tei.xml" = "out/x.tei.xml".
Proof. reflexivity. Qed.

Example join_trailing : path_join "out/" "x.tei.xml" = "out/x.tei.xml".
Proof. reflexivity. Qed.

Example join_empty : path_join "" "x.tei.xml" = "x.tei.xml".
Proof. reflexivity. Qed.

Example splitext_in_dir : splitext "a.b/c.d" = ("a.b/c", ".d").
Proof. reflexivity. Qed.

Example splitext_dots : splitext "a/..pdf" = ("a/..pdf", "").
Proof. reflexivity. Qed.

Example init_sample : init Sample.cfg Sample.up ∅ = Ok Sample.fresh.
Proof. reflexivity. Qed.

Example init_down :
  init Sample.cfg (λ _, 500) ∅ = Raise ConnectionError.
Proof. reflexivity. Qed.

Example walk_sample :
  os_walk Sample.fs "in"
  = [("in", ["sub"], ["a.pdf"; "e.pdf"]);
     ("in/sub", [], ["b.PDF"; "c.Pdf"; "d.txt"])].
Proof. reflexivity. Qed.

Example process_sample :
  submitted <$> snd (snd (process (Some 4) Sample.fs Sample.fresh
                            "processFulltextDocument" "in" None))
  = [["in/a.pdf"; "in/e.pdf"]; ["in/sub/b.PDF"]].
Proof. reflexivity. Qed.

Example main_n_default :
  main_n (λ _, None) (default_namespace "processReferences") = 10.
Proof. reflexivity. Qed.

Example main_n_bad :
  main_n (λ _, None) {| ns_service := "processReferences"; ns_input := None;
                        ns_output := None; ns_config := "./config.json";
                        ns_n := PStr "many"; ns_generateIDs := false;
                        ns_consolidate_header := false;
                        ns_consolidate_citations := false; ns_force := false;
                        ns_teiCoordinates := false |} = 10.
Proof. reflexivity. Qed.

Example process_pdf_ok :
  let '(r, _, w) := process_pdf 3 Sample.ready Sample.client "in/a.pdf"
                      Sample.disk in
  r = Ok tt ∧ files w !! "in/a.tei.xml" = Some "<TEI/>".
Proof. vm_compute. done. Qed.

Example process_pdf_missing_input :
  fst (fst (process_pdf 3 Sample.ready Sample.client "in/zz.pdf" Sample.disk))
  = Raise OSError.
Proof. reflexivity. Qed.

Example schedule_history :
  history <$> exec 3 Sample.ready Sample.plan Sample.schedule
                (start_run Sample.disk3)
  = Some [AOpen 0 4; ASubmit 0 0 "in/a.pdf"; ASubmit 0 1 "in/e.pdf";
          AStart 0 0; AStart 0 1; ADone 0 1 (Ok tt); ADone 0 0 (Ok tt);
          AClose 0;
          AOpen 1 4; ASubmit 1 0 "in/sub/b.PDF"; AStart 1 0;
          ADone 1 0 (Ok tt); AClose 1].
Proof. vm_compute. reflexivity. Qed.

Example schedule_cannot_close_early :
  exec 3 Sample.ready Sample.plan
    [COpen; CSubmit; CSubmit; CStart; CStart; CDone 1; CClose]
    (start_run Sample.disk3) = None.
Proof. vm_compute. reflexivity. Qed.

Example schedule_cannot_open_early :
  exec 3 Sample.ready Sample.plan
    [COpen; CSubmit; CSubmit; CStart; CStart; CDone 1; COpen]
    (start_run Sample.disk3) = None.
Proof. vm_compute. reflexivity. Qed.

(** ** Strings and character lists *)

Lemma text_chars (s : string) : text (chars s) = s.
Proof. apply String.string_of_list_ascii_of_string. Qed.

Lemma chars_text (l : list ascii) : chars (text l) = l.
Proof. apply String.list_ascii_of_string_of_list_ascii. Qed.

Lemma chars_app (s t : string) : chars (s +:+ t) = chars s ++ chars t.
Proof. induction s as [|c s IH]; simpl; [done | by rewrite IH]. Qed.

Lemma chars_inj (s t : string) : chars s = chars t → s = t.
Proof. intros H. rewrite <- (text_chars s), <- (text_chars t). by rewrite H. Qed.

Lemma length_chars (s : string) : length (chars s) = String.length s.
Proof. induction s as [|c s IH]; simpl; [done | by rewrite IH]. Qed.

Lemma string_length_app (s t : string) :
  String.length (s +:+ t) = (String.length s + String.length t)%nat.
Proof. by rewrite <- !length_chars, chars_app, length_app. Qed.

Lemma string_app_inv_tail (s t u : string) : s +:+ u = t +:+ u → s = t.
Proof.
  intros H. apply chars_inj. apply (f_equal chars) in H.
  rewrite !chars_app in H. by apply app_inv_tail in H.
Qed.

(** ** Actions and requests *)

Lemma posts_app (t u : list event) : posts (t ++ u) = posts t ++ posts u.
Proof. apply omap_app. Qed.

Lemma posts_log (e : event) (w : World) :
  posts (trace (log e w))
  = posts (trace w) ++ match e with EvPost r => [r] | _ => [] end.
Proof. unfold log; simpl. rewrite posts_app. by destruct e. Qed.

Lemma posts_write_file (filename body : string) (w : World) :
  posts (trace (write_file filename body w)) = posts (trace w).
Proof. unfold write_file; simpl. rewrite posts_app; simpl. apply app_nil_r. Qed.

(** Unfolding [process_pdf] by one frame. *)
Lemma process_pdf_unfold depth srv self path w :
  process_pdf (S depth) srv self path w
  = let filename := destination self path in
    if negb (truthy (force self)) && isfile w filename then
      (Ok tt, self, log (EvSkip filename) w)
    else
      let w1 := log (EvProcessing path) w in
      match files w !! path with
      | None => (Raise OSError, self, w1)
      | Some file =>
          let self1 :=
            set_api_url self (api_url self +:+ "/api/" +:+ service_str self) in
          let r :=
            {| req_url := api_url self1; req_input_name := path;
               req_input_body := file; req_input_type := "application/pdf";
               req_input_headers := {["Expires" := "0"]};
               req_data := _prepare_post_data self1;
               req_headers := {["Accept" := "text/plain"]} |} in
          let w2 := log (EvPost r) w1 in
          match srv (posts (trace w)) r with
          | Raise e => (Raise e, self1, w2)
          | Ok (status_code, response) =>
              if status_code =? 503 then
                process_pdf depth srv self1 path
                  (log (EvSleep (sleep_time (config self))) w2)
              else if negb (status_code =? 200) then
                (Ok tt, self1, log (EvFailed status_code) w2)
              else if bool_decide (filename ∈ readonly w) then
                (Ok tt, self1, log (EvWriteFailed filename) w2)
              else (Ok tt, self1, write_file filename response w2)
          end
      end.
Proof.
  simpl. destruct (negb _ && _); [done|].
  change (files (log (EvProcessing path) w)) with (files w).
  destruct (files w !! path) as [file|]; [|done].
  unfold post. rewrite posts_log; simpl. rewrite app_nil_r.
  by destruct (srv _ _) as [[??]|?].
Qed.

(** The requests only grow, and a call of [process_pdf] that sends one has
    lengthened [api_url]. *)
Lemma process_pdf_api_url_grows depth srv self path w r self' w' :
  process_pdf depth srv self path w = (r, self', w') →
  (length (posts (trace w)) ≤ length (posts (trace w')))%nat ∧
  (String.length (api_url self) ≤ String.length (api_url self'))%nat ∧
  ((length (posts (trace w)) < length (posts (trace w')))%nat →
   (String.length (api_url self) < String.length (api_url self'))%nat).
Proof.
  revert self w r self' w'.
  induction depth as [|depth IH]; intros self w r self' w'.
  { simpl. intros [= <- <- <-]. lia. }
  rewrite process_pdf_unfold. cbv zeta.
  destruct (negb (truthy (force self)) && isfile w (destination self path)).
  { intros [= <- <- <-]. rewrite posts_log, length_app; simpl. lia. }
  destruct (files w !! path) as [file|].
  2:{ intros [= <- <- <-]. rewrite posts_log, length_app; simpl. lia. }
  set (self1 := set_api_url self _).
  set (rq := Build_Request _ _ _ _ _ _ _).
  assert (Hlen : (String.length (api_url self)
                  < String.length (api_url self1))%nat).
  { unfold self1; simpl. rewrite !string_length_app; simpl. lia. }
  assert (Hp : length (posts (trace (log (EvPost rq) (log (EvProcessing path) w))))
               = S (length (posts (trace w)))).
  { rewrite !posts_log, !length_app; simpl. lia. }
  clearbody self1 rq.
  destruct (srv (posts (trace w)) rq) as [[status_code body]|e].
  2:{ intros [= <- <- <-]. lia. }
  destruct (status_code =? 503).
  { intros H. apply IH in H. rewrite posts_log, length_app, Hp in H.
    simpl in H. lia. }
  destruct (negb (status_code =? 200)).
  { intros [= <- <- <-]. rewrite posts_log, length_app, Hp; simpl. lia. }
  destruct (bool_decide _).
  - intros [= <- <- <-]. rewrite posts_log, length_app, Hp; simpl. lia.
  - intros [= <- <- <-]. rewrite posts_write_file, Hp. lia.
Qed.

(** ** The batching loop *)

Lemma for_filenames_gathers k self B d fns :
  0 < k →
  ∀ buf pools all, gathered B pools buf all →
    ∃ buf' pools',
      for_filenames (Some k) self B d fns buf pools = (Ok buf', pools') ∧
      gathered B pools' buf'
        (all ++ (sep_join d <$> filter (λ f, matching f = true) fns)).
Proof.
  intros Hk. induction fns as [|f fns IH]; intros buf pools all Hg.
  { exists buf, pools. split; [done|]. by rewrite app_nil_r. }
  simpl. fold (matching f). destruct (matching f) eqn:Hm.
  - rewrite filter_cons_True by done. rewrite fmap_cons.
    destruct Hg as [Hall Hfull].
    destruct (Z.eqb_spec (Z.of_nat (length (buf ++ [sep_join d f]))) B)
      as [Heq|Hne].
    + unfold bind, process_batch.
      destruct (Z.leb_spec k 0) as [?|_]; [lia|].
      edestruct (IH [] (pools ++ [{| max_workers := k; pool_self := self;
                                     submitted := buf ++ [sep_join d f] |}])
                   (all ++ [sep_join d f])) as (buf' & pools' & Hrun & Hg').
      { split.
        - rewrite fmap_app, concat_app; simpl. rewrite !app_nil_r.
          by rewrite Hall, app_assoc.
        - intros HB. split; [|simpl; lia].
          apply Forall_app. split; [by apply Hfull|].
          by apply Forall_singleton. }
      exists buf', pools'. split; [done|].
      by rewrite <- app_assoc in Hg'.
    + edestruct (IH (buf ++ [sep_join d f]) pools (all ++ [sep_join d f]))
        as (buf' & pools' & Hrun & Hg').
      { split; [by rewrite Hall, app_assoc|].
        intros HB. destruct (Hfull HB) as [HF Hlt]. split; [done|].
        rewrite length_app in *. simpl in *. lia. }
      exists buf', pools'. split; [done|].
      by rewrite <- app_assoc in Hg'.
  - rewrite filter_cons_False by (by rewrite Hm). by apply IH.
Qed.

Lemma discovered_cons d dirs fns triples :
  discovered ((d, dirs, fns) :: triples)
  = (sep_join d <$> filter (λ f, matching f = true) fns)
    ++ discovered triples.
Proof. done. Qed.

Lemma for_walk_gathers k self B triples :
  0 < k →
  ∀ buf pools all, gathered B pools buf all →
    ∃ buf' pools',
      for_walk (Some k) self B triples buf pools = (Ok buf', pools') ∧
      gathered B pools' buf' (all ++ discovered triples).
Proof.
  intros Hk. induction triples as [|[[d dirs] fns] triples IH];
    intros buf pools all Hg.
  { exists buf, pools. split; [done|]. by rewrite app_nil_r. }
  simpl for_walk. unfold bind.
  destruct (for_filenames_gathers k self B d fns Hk buf pools all Hg)
    as (buf1 & pools1 & -> & Hg1).
  destruct (IH buf1 pools1 _ Hg1) as (buf' & pools' & Hrun & Hg').
  exists buf', pools'. split; [done|].
  by rewrite discovered_cons, app_assoc.
Qed.

(** The pools of a whole run: full pools, then the rest of the buffer. *)
Lemma process_gathers k fs self sv input od :
  0 < k →
  ∃ pools buf,
    gathered (batch_size (config self)) pools buf
      (discovered (os_walk fs input)) ∧
    snd (process (Some k) fs self sv input od)
    = (Ok tt,
       pools ++ match buf with
                | [] => []
                | _ => [{| max_workers := k; pool_self := set_run self sv od;
                           submitted := buf |}]
                end).
Proof.
  intros Hk. unfold process; simpl. unfold bind.
  destruct (for_walk_gathers k (set_run self sv od) (batch_size (config self))
              (os_walk fs input) Hk [] [] [])
    as (buf & pools & -> & Hg).
  { split; [done|]. intros HB. split; [constructor|simpl; lia]. }
  exists pools, buf. split; [done|].
  destruct buf as [|p buf]; simpl; [by rewrite app_nil_r|].
  unfold process_batch. by destruct (Z.leb_spec k 0) as [?|_]; [lia|].
Qed.


(** ** C1: the batches are consecutive slices *)

Lemma length_concat_full {A} (B : nat) (bs : list (list A)) :
  Forall (λ b, length b = B) bs → length (concat bs) = (length bs * B)%nat.
Proof.
  induction 1 as [|b bs Hb _ IH]; simpl; [done|].
  rewrite length_app, IH, Hb. lia.
Qed.

(** Full chunks followed by a shorter rest are the slices of the whole. *)
Lemma chunks_are_slices {A} (B : nat) (bs : list (list A)) (r : list A) :
  Forall (λ b, length b = B) bs → (length r < B)%nat →
  ∀ i b,
    (bs ++ match r with [] => [] | _ => [r] end) !! i = Some b →
    b = slice (i * B) (min ((i + 1) * B) (length (concat bs ++ r)))
          (concat bs ++ r).
Proof.
  intros Hfull Hr. induction Hfull as [|b0 bs Hb0 Hfull IH]; intros i b Hi.
  - simpl in *. destruct r as [|x r]; [done|].
    destruct i as [|i]; [|done]. injection Hi as <-.
    unfold slice. simpl drop.
    rewrite take_ge; [done|]. simpl in *. lia.
  - destruct i as [|i]; simpl in Hi.
    + injection Hi as <-. unfold slice. simpl drop. simpl concat.
      rewrite <- app_assoc, length_app.
      replace (min ((0 + 1) * B) (length b0 + length (concat bs ++ r)) - 0 * B)%nat
        with (length b0) by lia.
      rewrite drop_0. by rewrite take_app_length.
    + rewrite (IH i b Hi). unfold slice. simpl concat.
      rewrite <- app_assoc, (length_app b0).
      replace (S i * B)%nat with (length b0 + i * B)%nat by lia.
      rewrite drop_app_add. f_equal. lia.
Qed.

Lemma ceil_div_chunks (B n r : Z) :
  0 < B → 0 ≤ n → 0 ≤ r < B →
  (n * B + r + B - 1) / B = n + (if r =? 0 then 0 else 1).
Proof.
  intros HB Hn Hr. destruct (Z.eqb_spec r 0) as [->|Hne].
  - symmetry. apply (Z.div_unique _ _ _ (B - 1)); lia.
  - symmetry. apply (Z.div_unique _ _ _ (r - 1)); lia.
Qed.

(** With the pool size [n] bound to a positive number and a positive
    [batch_size] B, [process] returns normally after running exactly
    ceil(M/B) pools, M being the number of matching paths of the walk, and
    the [i]-th pool is submitted exactly the paths at the positions
    [i·B, min((i+1)·B, M)) of the traversal order. *)
Theorem process_batches_are_slices k fs self sv input od :
  0 < k → 0 < batch_size (config self) →
  let B := batch_size (config self) in
  let paths := discovered (os_walk fs input) in
  let M := length paths in
  ∃ pools,
    snd (process (Some k) fs self sv input od) = (Ok tt, pools) ∧
    Z.of_nat (length pools) = (Z.of_nat M + B - 1) / B ∧
    ∀ i p, pools !! i = Some p →
      submitted p
      = slice (i * Z.to_nat B) (min ((i + 1) * Z.to_nat B) M) paths.
Proof.
  intros Hk HB B paths M.
  destruct (process_gathers k fs self sv input od Hk)
    as (pools & buf & [Hall Hfull] & Hrun).
  destruct (Hfull HB) as [Hpools Hbuf]. fold B in Hpools, Hbuf.
  fold paths in Hall.
  assert (HF : Forall (λ b : list string, length b = Z.to_nat B)
                 (submitted <$> pools)).
  { apply Forall_fmap. eapply Forall_impl; [exact Hpools|].
    simpl. intros p Hp. lia. }
  eexists; split; [exact Hrun|]. split.
  - assert (HM : Z.of_nat M = Z.of_nat (length pools) * B
                                + Z.of_nat (length buf)).
    { unfold M. rewrite Hall, length_app, (length_concat_full _ _ HF).
      rewrite length_fmap. lia. }
    rewrite HM, ceil_div_chunks by lia.
    rewrite length_app. destruct buf; simpl; lia.
  - intros i p Hi.
    assert (Hi' : ((submitted <$> pools)
                   ++ match buf with [] => [] | _ => [buf] end) !! i
                  = Some (submitted p)).
    { replace (match buf with [] => [] | _ => [buf] end)
        with (submitted <$> match buf with
                            | [] => []
                            | _ => [{| max_workers := k;
                                       pool_self := set_run self sv od;
                                       submitted := buf |}]
                            end) by (by destruct buf).
      rewrite <- fmap_app, list_lookup_fmap, Hi. done. }
    apply (chunks_are_slices (Z.to_nat B)) in Hi'; [|done|lia].
    unfold M. by rewrite Hall.
Qed.

Lemma process_batches_are_slices_witness :
  ∃ pools,
    snd (process (Some 4) Sample.fs Sample.fresh "processFulltextDocument"
           "in" None) = (Ok tt, pools) ∧
    Z.of_nat (length pools) = (Z.of_nat 3 + 2 - 1) / 2 ∧
    ∀ i p, pools !! i = Some p →
      submitted p
      = slice (i * 2) (min ((i + 1) * 2) 3)
          ["in/a.pdf"; "in/e.pdf"; "in/sub/b.PDF"].
Proof.
  apply (process_batches_are_slices 4 Sample.fs Sample.fresh
           "processFulltextDocument" "in" None); reflexivity.
Defined.

(** C1.  A program that imports the module leaves the name [n] unbound.
    Over the sample tree the walk yields three matching paths, which with
    the batch size 2 make ceil(3/2) = 2 batches; [process] raises
    [NameError] when the first of them is due, and no batch is scheduled. *)
Theorem process_without_n_schedules_no_batch :
  let paths := discovered (os_walk Sample.fs "in") in
  let B := batch_size (config Sample.fresh) in
  paths = ["in/a.pdf"; "in/e.pdf"; "in/sub/b.PDF"] ∧ B = 2 ∧
  (Z.of_nat (length paths) + B - 1) / B = 2 ∧
  snd (process None Sample.fs Sample.fresh "processFulltextDocument" "in"
         None)
  = (Raise NameError, []).
Proof. vm_compute. repeat split. Qed.

(** ** C2: one batch at a time *)

Lemma drained_mono plan k h e : drained plan k h → drained plan k (h ++ [e]).
Proof.
  intros H p i Hp Hi. destruct (H p i Hp Hi) as [r Hr].
  exists r. apply elem_of_app. by left.
Qed.

Lemma well_ordered_snoc plan h e :
  well_ordered plan h → barrier plan e h → well_ordered plan (h ++ [e]).
Proof.
  intros Hh He t e' Ht.
  destruct (decide (t < length h)%nat) as [Hlt|Hge].
  - rewrite lookup_app_l in Ht by done.
    rewrite take_app_le by lia. by apply Hh.
  - rewrite lookup_app_r in Ht by lia.
    destruct (t - length h)%nat as [|n] eqn:Hn; [|by destruct n].
    injection Ht as <-.
    replace t with (length h) by lia.
    by rewrite take_app_length.
Qed.

Lemma run_inv_start plan w : run_inv plan (start_run w).
Proof.
  split; [|split].
  - intros t e Ht. done.
  - intros k Hk. simpl in Hk. lia.
  - done.
Qed.

Lemma run_inv_step depth srv plan c s s' :
  run_inv plan s → step depth srv plan c s = Some s' → run_inv plan s'.
Proof.
  intros (Hord & Hpast & Hacc). unfold step.
  destruct (plan !! batch_no s) as [p|] eqn:Hp; [simpl|done].
  unfold accounted in Hacc.
  destruct c as [| | |i|], (current s) as [a|] eqn:Hcur; try done.
  - (* COpen *)
    intros [= <-]. split; [|split]; simpl.
    + by apply well_ordered_snoc.
    + intros k Hk. by apply drained_mono, Hpast.
    + unfold accounted; simpl. intros i Hi. lia.
  - (* CSubmit *)
    destruct (submitted p !! next a) as [path|] eqn:Hpath; [simpl|done].
    intros [= <-]. split; [|split]; simpl.
    + apply well_ordered_snoc; [done|]. simpl.
      destruct (batch_no s) as [|k] eqn:Hk; [done|]. apply Hpast. lia.
    + intros k Hk. by apply drained_mono, Hpast.
    + unfold accounted; simpl. intros i Hi.
      destruct (decide (i = next a)) as [->|Hne].
      * left. apply elem_of_app. right. by apply list_elem_of_singleton.
      * destruct (Hacc i) as [H|[H|[r H]]]; [lia| | |].
        -- left. apply elem_of_app. by left.
        -- by right; left.
        -- right; right. exists r. apply elem_of_app. by left.
  - (* CStart *)
    destruct (queued a) as [|i q] eqn:Hq; [done|].
    destruct (_ <? _); [|done].
    intros [= <-]. split; [|split]; simpl.
    + by apply well_ordered_snoc.
    + intros k Hk. by apply drained_mono, Hpast.
    + unfold accounted; simpl. intros j Hj.
      destruct (Hacc j Hj) as [H|[H|[r H]]].
      * apply elem_of_cons in H as [->|H]; [|by left].
        right; left. apply elem_of_app. right.
        by apply list_elem_of_singleton.
      * right; left. apply elem_of_app. by left.
      * right; right. exists r. apply elem_of_app. by left.
  - (* CDone *)
    destruct (bool_decide (i ∈ running a)); [|done].
    destruct (submitted p !! i) as [path|]; [simpl|done].
    destruct (process_pdf depth srv (pool_self p) path (world s))
      as [[r self'] w'].
    intros [= <-]. split; [|split]; simpl.
    + by apply well_ordered_snoc.
    + intros k Hk. by apply drained_mono, Hpast.
    + unfold accounted; simpl. intros j Hj.
      destruct (decide (j = i)) as [->|Hne].
      * right; right. exists r. apply elem_of_app. right.
        by apply list_elem_of_singleton.
      * destruct (Hacc j Hj) as [H|[H|[r' H]]].
        -- by left.
        -- right; left. by apply list_elem_of_filter.
        -- right; right. exists r'. apply elem_of_app. by left.
  - (* CClose *)
    destruct (bool_decide (next a = length (submitted p))) eqn:Hnext;
      [|done].
    destruct (bool_decide (queued a = [])) eqn:Hq; [|done].
    destruct (bool_decide (running a = [])) eqn:Hr; [simpl|done].
    apply bool_decide_eq_true in Hnext, Hq, Hr.
    assert (Hnow : drained plan (batch_no s) (history s)).
    { intros p' i Hp' Hi. rewrite Hp in Hp'. injection Hp' as <-.
      destruct (Hacc i) as [H|[H|H]]; [lia| | |done].
      - rewrite Hq in H. by apply elem_of_nil in H.
      - rewrite Hr in H. by apply elem_of_nil in H. }
    intros [= <-]. split; [|split]; simpl.
    + by apply well_ordered_snoc.
    + intros k Hk. apply drained_mono.
      destruct (decide (k = batch_no s)) as [->|Hne]; [done|].
      apply Hpast. lia.
    + done.
Qed.

Lemma run_inv_exec depth srv plan cs :
  ∀ s s', run_inv plan s → exec depth srv plan cs s = Some s' →
          run_inv plan s'.
Proof.
  induction cs as [|c cs IH]; intros s s' Hinv; simpl.
  { by intros [= <-]. }
  destruct (step depth srv plan c s) as [s1|] eqn:Hstep; [simpl|done].
  apply IH. by eapply run_inv_step.
Qed.

(** C2.  Whatever the schedule, in the history of a run a unit of batch
    [k+1] is submitted only after every unit of batch [k] has reached a
    terminal state (its [process_pdf] call has returned or raised), and
    [process_batch] returns from batch [k] only after every unit of batch
    [k] has. *)
Theorem next_batch_waits_for_previous depth srv plan cs w s :
  exec depth srv plan cs (start_run w) = Some s →
  (∀ t k i path,
     history s !! t = Some (ASubmit (S k) i path) →
     drained plan k (take t (history s))) ∧
  (∀ t k,
     history s !! t = Some (AClose k) →
     drained plan k (take t (history s))).
Proof.
  intros Hexec.
  destruct (run_inv_exec depth srv plan cs _ _ (run_inv_start plan w) Hexec)
    as (Hord & _ & _).
  split.
  - intros t k i path Ht. exact (Hord t _ Ht).
  - intros t k Ht. exact (Hord t _ Ht).
Qed.

Lemma next_batch_waits_for_previous_witness :
  ∃ s,
    exec 3 Sample.ready Sample.plan Sample.schedule (start_run Sample.disk3)
    = Some s ∧
    (∀ t k i path,
       history s !! t = Some (ASubmit (S k) i path) →
       drained Sample.plan k (take t (history s))) ∧
    (∀ t k,
       history s !! t = Some (AClose k) →
       drained Sample.plan k (take t (history s))).
Proof.
  destruct (exec 3 Sample.ready Sample.plan Sample.schedule
              (start_run Sample.disk3)) as [s|] eqn:Hexec;
    [|vm_compute in Hexec; discriminate Hexec].
  exists s. split; [reflexivity|].
  exact (next_batch_waits_for_previous 3 Sample.ready Sample.plan
           Sample.schedule Sample.disk3 s Hexec).
Defined.

(** ** The run is never stuck *)

Lemma exec_app depth srv plan cs1 cs2 s :
  exec depth srv plan (cs1 ++ cs2) s
  = s1 ← exec depth srv plan cs1 s; exec depth srv plan cs2 s1.
Proof.
  revert s. induction cs1 as [|c cs1 IH]; intros s; simpl; [done|].
  destruct (step depth srv plan c s) as [s1|]; simpl; [apply IH|done].
Qed.

Lemma exec_cons depth srv plan c cs s :
  exec depth srv plan (c :: cs) s
  = s1 ← step depth srv plan c s; exec depth srv plan cs s1.
Proof. done. Qed.

Lemma step_open depth srv plan p s :
  plan !! batch_no s = Some p → current s = None →
  ∃ s', step depth srv plan COpen s = Some s' ∧
        batch_no s' = batch_no s ∧
        current s' = Some {| next := 0; queued := []; running := [] |}.
Proof.
  intros Hp Hcur. unfold step. rewrite Hp, Hcur; simpl. by eexists.
Qed.

Lemma step_submit depth srv plan p s j q :
  plan !! batch_no s = Some p →
  current s = Some {| next := j; queued := q; running := [] |} →
  (j < length (submitted p))%nat →
  ∃ s', step depth srv plan CSubmit s = Some s' ∧
        batch_no s' = batch_no s ∧
        current s' = Some {| next := S j; queued := q ++ [j];
                             running := [] |}.
Proof.
  intros Hp Hcur Hlt. unfold step. rewrite Hp, Hcur; simpl.
  destruct (lookup_lt_is_Some_2 (submitted p) j Hlt) as [path Hpath].
  rewrite Hpath; simpl. by eexists.
Qed.

Lemma step_start depth srv plan p s n i q :
  0 < max_workers p →
  plan !! batch_no s = Some p →
  current s = Some {| next := n; queued := i :: q; running := [] |} →
  ∃ s', step depth srv plan CStart s = Some s' ∧
        batch_no s' = batch_no s ∧
        current s' = Some {| next := n; queued := q; running := [i] |}.
Proof.
  intros Hsize Hp Hcur. unfold step. rewrite Hp, Hcur; simpl.
  change (Z.of_nat 0) with 0.
  destruct (Z.ltb_spec 0 (max_workers p)) as [_|?]; [|lia]. by eexists.
Qed.

Lemma step_done depth srv plan p s n i q :
  plan !! batch_no s = Some p →
  current s = Some {| next := n; queued := q; running := [i] |} →
  (i < length (submitted p))%nat →
  ∃ s', step depth srv plan (CDone i) s = Some s' ∧
        batch_no s' = batch_no s ∧
        current s' = Some {| next := n; queued := q; running := [] |}.
Proof.
  intros Hp Hcur Hlt. unfold step. rewrite Hp, Hcur; simpl.
  rewrite bool_decide_eq_true_2 by (by apply list_elem_of_singleton).
  destruct (lookup_lt_is_Some_2 (submitted p) i Hlt) as [path Hpath].
  rewrite Hpath; simpl.
  destruct (process_pdf depth srv (pool_self p) path (world s))
    as [[r self'] w'].
  eexists. split; [reflexivity|]. split; [done|]. simpl.
  by rewrite filter_cons_False by (intros H; by apply H).
Qed.

Lemma step_close depth srv plan p s :
  plan !! batch_no s = Some p →
  current s = Some {| next := length (submitted p); queued := [];
                      running := [] |} →
  ∃ s', step depth srv plan CClose s = Some s' ∧
        batch_no s' = S (batch_no s) ∧ current s' = None.
Proof.
  intros Hp Hcur. unfold step. rewrite Hp, Hcur; simpl.
  rewrite !bool_decide_eq_true_2 by done. by eexists.
Qed.

(** The [for] loop of [process_batch]: [m] more submissions. *)
Lemma exec_submits depth srv plan p m :
  ∀ s q j,
    plan !! batch_no s = Some p →
    current s = Some {| next := j; queued := q; running := [] |} →
    (j + m ≤ length (submitted p))%nat →
    ∃ s', exec depth srv plan (replicate m CSubmit) s = Some s' ∧
          batch_no s' = batch_no s ∧
          current s' = Some {| next := j + m; queued := q ++ seq j m;
                               running := [] |}.
Proof.
  induction m as [|m IH]; intros s q j Hp Hcur Hle.
  { exists s. rewrite Nat.add_0_r, app_nil_r. done. }
  cbn [replicate]. rewrite exec_cons.
  destruct (step_submit depth srv plan p s j q Hp Hcur)
    as (s1 & -> & Hb1 & Hc1); [lia|]. simpl.
  destruct (IH s1 (q ++ [j]) (S j)) as (s' & Hexec & Hb & Hc);
    [by rewrite Hb1|done|lia|].
  exists s'. split; [done|]. split; [by rewrite Hb|].
  rewrite Hc. cbn [seq]. by rewrite <- app_assoc, Nat.add_succ_r.
Qed.

(** The workers: each queued unit is started and finished in turn. *)
Lemma exec_works depth srv plan p n m :
  0 < max_workers p →
  ∀ s j,
    plan !! batch_no s = Some p →
    current s = Some {| next := n; queued := seq j m; running := [] |} →
    (j + m ≤ length (submitted p))%nat →
    ∃ s', exec depth srv plan
            (flat_map (λ i, [CStart; CDone i]) (seq j m)) s = Some s' ∧
          batch_no s' = batch_no s ∧
          current s' = Some {| next := n; queued := []; running := [] |}.
Proof.
  intros Hsize. induction m as [|m IH]; intros s j Hp Hcur Hle.
  { by exists s. }
  cbn [seq flat_map app]. rewrite !exec_cons.
  destruct (step_start depth srv plan p s n j (seq (S j) m) Hsize Hp Hcur)
    as (s1 & -> & Hb1 & Hc1). simpl.
  rewrite <- Hb1 in Hp.
  destruct (step_done depth srv plan p s1 n j (seq (S j) m) Hp Hc1)
    as (s2 & -> & Hb2 & Hc2); [lia|]. simpl.
  rewrite <- Hb2 in Hp.
  destruct (IH s2 (S j) Hp Hc2) as (s' & Hexec & Hb & Hc); [lia|].
  exists s'. split; [done|]. split; [|done]. by rewrite Hb, Hb2.
Qed.

Lemma exec_one_by_one depth srv plan p s :
  0 < max_workers p →
  plan !! batch_no s = Some p → current s = None →
  ∃ s', exec depth srv plan (one_by_one p) s = Some s' ∧
        batch_no s' = S (batch_no s) ∧ current s' = None.
Proof.
  intros Hsize Hp Hcur. unfold one_by_one.
  cbn [app]. rewrite exec_cons.
  destruct (step_open depth srv plan p s Hp Hcur) as (s0 & -> & Hb0 & Hc0).
  simpl. rewrite <- Hb0 in Hp. rewrite exec_app.
  destruct (exec_submits depth srv plan p (length (submitted p)) s0 [] 0%nat
              Hp Hc0) as (s1 & -> & Hb1 & Hc1); [lia|]. simpl.
  simpl in Hc1. rewrite <- Hb1 in Hp. rewrite exec_app.
  destruct (exec_works depth srv plan p (length (submitted p))
              (length (submitted p)) Hsize s1 0%nat Hp Hc1)
    as (s2 & -> & Hb2 & Hc2); [lia|]. cbn [mbind option_bind].
  rewrite <- Hb2 in Hp. rewrite exec_cons.
  destruct (step_close depth srv plan p s2 Hp Hc2) as (s3 & -> & Hb3 & Hc3).
  simpl. exists s3. split; [done|]. split; [|done].
  by rewrite Hb3, Hb2, Hb1, Hb0.
Qed.

(** Every run can be carried through: with pools of positive size, the
    schedule that takes the units one by one closes every batch. *)
Lemma exec_sequential depth srv plan :
  Forall (λ p, 0 < max_workers p) plan →
  ∀ rest s,
    drop (batch_no s) plan = rest → current s = None →
    ∃ s', exec depth srv plan (sequential rest) s = Some s' ∧
          batch_no s' = (batch_no s + length rest)%nat ∧ current s' = None.
Proof.
  intros Hsizes rest. induction rest as [|p rest IH]; intros s Hdrop Hcur.
  { exists s. simpl. split; [done|]. split; [lia|done]. }
  assert (Hp : plan !! batch_no s = Some p).
  { rewrite <- (Nat.add_0_r (batch_no s)), <- lookup_drop, Hdrop. done. }
  assert (Hsize : 0 < max_workers p).
  { rewrite Forall_forall in Hsizes. apply Hsizes.
    by eapply list_elem_of_lookup_2. }
  change (sequential (p :: rest)) with (one_by_one p ++ sequential rest).
  rewrite exec_app.
  destruct (exec_one_by_one depth srv plan p s Hsize Hp Hcur)
    as (s1 & -> & Hb1 & Hc1); cbn [mbind option_bind].
  destruct (IH s1) as (s' & Hexec & Hb & Hc); [|done|].
  { rewrite Hb1. replace (S (batch_no s)) with (batch_no s + 1)%nat by lia.
    by rewrite <- drop_drop, Hdrop. }
  exists s'. split; [done|]. split; [|done]. rewrite Hb, Hb1. simpl. lia.
Qed.

Lemma Forall_filter_keeps {A} (P Q : A → Prop) `{∀ x, Decision (Q x)}
    (l : list A) :
  Forall P l → Forall P (filter Q l).
Proof.
  rewrite !Forall_forall. intros Hl x [_ Hx]%list_elem_of_filter. auto.
Qed.

Lemma in_bounds_start plan w : in_bounds plan (start_run w).
Proof. unfold in_bounds; simpl. lia. Qed.

Lemma in_bounds_step depth srv plan c s s' :
  step depth srv plan c s = Some s' → in_bounds plan s → in_bounds plan s'.
Proof.
  unfold step, in_bounds.
  destruct (plan !! batch_no s) as [p|] eqn:Hp; [|done]. simpl.
  destruct c, (current s) as [a|] eqn:Hcur; try done.
  - intros [= <-] _; simpl. exists p. split; [done|].
    split; [lia|]. by split.
  - destruct (submitted p !! next a) as [path|] eqn:Hpath; [|done]. simpl.
    intros [= <-] (p' & [= <-] & Hle & Hq & Hr); simpl.
    exists p. split; [done|]. apply lookup_lt_Some in Hpath.
    split; [lia|]. split.
    + apply Forall_app. split.
      * eapply Forall_impl; [exact Hq|]. simpl. lia.
      * apply Forall_singleton. lia.
    + eapply Forall_impl; [exact Hr|]. simpl. lia.
  - destruct (queued a) as [|i q] eqn:Hqa; [done|].
    destruct (_ <? _); [|done].
    intros [= <-] (p' & [= <-] & Hle & Hq & Hr); simpl.
    exists p. split; [done|]. split; [done|].
    apply Forall_cons in Hq as [Hi Hq]. split; [done|].
    apply Forall_app. split; [done|]. by apply Forall_singleton.
  - case_bool_decide; [|done].
    destruct (submitted p !! i) as [path|]; [|done]. simpl.
    destruct (process_pdf _ _ _ _ _) as [[r self'] w'].
    intros [= <-] (p' & [= <-] & Hle & Hq & Hr); simpl.
    exists p. split; [done|]. split; [done|]. split; [done|].
    by apply Forall_filter_keeps.
  - destruct (_ && _); [|done]. intros [= <-] _; simpl.
    apply lookup_lt_Some in Hp. lia.
Qed.

Lemma in_bounds_exec depth srv plan cs :
  ∀ s s', exec depth srv plan cs s = Some s' →
          in_bounds plan s → in_bounds plan s'.
Proof.
  induction cs as [|c cs IH]; intros s s'; simpl.
  { by intros [= <-]. }
  destruct (step depth srv plan c s) as [s1|] eqn:Hstep; [|done]. simpl.
  intros Hexec Hs. eapply IH; [exact Hexec|].
  by eapply in_bounds_step.
Qed.

(** A running unit can finish, whatever else runs. *)
Lemma step_done_any depth srv plan p s n i q r :
  plan !! batch_no s = Some p →
  current s = Some {| next := n; queued := q; running := i :: r |} →
  (i < length (submitted p))%nat →
  ∃ s', step depth srv plan (CDone i) s = Some s' ∧
        batch_no s' = batch_no s ∧
        current s' = Some {| next := n; queued := q;
                             running := filter (λ j, j ≠ i) r |}.
Proof.
  intros Hp Hcur Hlt. unfold step. rewrite Hp, Hcur; simpl.
  rewrite bool_decide_eq_true_2 by apply list_elem_of_here.
  destruct (lookup_lt_is_Some_2 (submitted p) i Hlt) as [path Hpath].
  rewrite Hpath; simpl.
  destruct (process_pdf depth srv (pool_self p) path (world s))
    as [[res self'] w'].
  eexists. split; [reflexivity|]. split; [done|]. simpl.
  by rewrite filter_cons_False by (intros H; by apply H).
Qed.

(** The running units can all finish. *)
Lemma exec_finishes_running depth srv plan p n q m :
  ∀ s r,
    (length r ≤ m)%nat →
    plan !! batch_no s = Some p →
    current s = Some {| next := n; queued := q; running := r |} →
    Forall (λ i, (i < length (submitted p))%nat) r →
    ∃ cs s', exec depth srv plan cs s = Some s' ∧
             batch_no s' = batch_no s ∧
             current s' = Some {| next := n; queued := q; running := [] |}.
Proof.
  induction m as [|m IH]; intros s r Hlen Hp Hcur Hr.
  { destruct r; [|simpl in Hlen; lia]. by exists [], s. }
  destruct r as [|i r]; [by exists [], s|].
  apply Forall_cons in Hr as [Hi Hr].
  destruct (step_done_any depth srv plan p s n i q r Hp Hcur Hi)
    as (s1 & Hstep & Hb1 & Hc1).
  destruct (IH s1 (filter (λ j, j ≠ i) r)) as (cs & s' & Hexec & Hb & Hc).
  - pose proof (length_filter (λ j, j ≠ i) r). simpl in Hlen. lia.
  - by rewrite Hb1.
  - exact Hc1.
  - by apply Forall_filter_keeps.
  - exists (CDone i :: cs), s'. rewrite exec_cons, Hstep. simpl.
    split; [done|]. split; [by rewrite Hb|done].
Qed.

(** The queued units can all be started and finished, in turn. *)
Lemma exec_works_queue depth srv plan p n q :
  0 < max_workers p →
  ∀ s,
    plan !! batch_no s = Some p →
    current s = Some {| next := n; queued := q; running := [] |} →
    Forall (λ i, (i < length (submitted p))%nat) q →
    ∃ cs s', exec depth srv plan cs s = Some s' ∧
             batch_no s' = batch_no s ∧
             current s' = Some {| next := n; queued := []; running := [] |}.
Proof.
  intros Hsize. induction q as [|i q IH]; intros s Hp Hcur Hq.
  { by exists [], s. }
  apply Forall_cons in Hq as [Hi Hq].
  destruct (step_start depth srv plan p s n i q Hsize Hp Hcur)
    as (s1 & Hs1 & Hb1 & Hc1).
  rewrite <- Hb1 in Hp.
  destruct (step_done depth srv plan p s1 n i q Hp Hc1 Hi)
    as (s2 & Hs2 & Hb2 & Hc2).
  rewrite <- Hb2 in Hp.
  destruct (IH s2 Hp Hc2 Hq) as (cs & s' & Hexec & Hb & Hc).
  exists (CStart :: CDone i :: cs), s'.
  rewrite !exec_cons, Hs1. simpl. rewrite Hs2. simpl.
  split; [done|]. split; [|done]. by rewrite Hb, Hb2.
Qed.

(** An open pool can be drained and closed. *)
Lemma exec_closes_open_pool depth srv plan s a :
  Forall (λ p, 0 < max_workers p) plan →
  in_bounds plan s → current s = Some a →
  ∃ cs s', exec depth srv plan cs s = Some s' ∧
           batch_no s' = S (batch_no s) ∧ current s' = None.
Proof.
  intros Hsizes Hin Hcur. unfold in_bounds in Hin. rewrite Hcur in Hin.
  destruct Hin as (p & Hp & Hle & Hq & Hr).
  assert (Hsize : 0 < max_workers p).
  { rewrite Forall_forall in Hsizes. apply Hsizes.
    by eapply list_elem_of_lookup_2. }
  destruct a as [n q r]. simpl in Hle, Hq, Hr.
  destruct (exec_finishes_running depth srv plan p n q (length r) s r)
    as (cs1 & s1 & He1 & Hb1 & Hc1); [done|done|done| |].
  { eapply Forall_impl; [exact Hr|]. simpl. lia. }
  rewrite <- Hb1 in Hp.
  destruct (exec_submits depth srv plan p (length (submitted p) - n) s1 q n
              Hp Hc1) as (s2 & He2 & Hb2 & Hc2); [lia|].
  replace (n + (length (submitted p) - n))%nat with (length (submitted p))
    in Hc2 by lia.
  rewrite <- Hb2 in Hp.
  destruct (exec_works_queue depth srv plan p (length (submitted p))
              (q ++ seq n (length (submitted p) - n)) Hsize s2 Hp Hc2)
    as (cs3 & s3 & He3 & Hb3 & Hc3).
  { apply Forall_app. split.
    - eapply Forall_impl; [exact Hq|]. simpl. lia.
    - apply Forall_forall. intros i Hi%elem_of_seq. lia. }
  rewrite <- Hb3 in Hp.
  destruct (step_close depth srv plan p s3 Hp Hc3) as (s4 & Hs4 & Hb4 & Hc4).
  exists (cs1 ++ replicate (length (submitted p) - n) CSubmit ++ cs3
          ++ [CClose]), s4.
  rewrite exec_app, He1. simpl. rewrite exec_app, He2. simpl.
  rewrite exec_app, He3. simpl. rewrite Hs4. simpl.
  split; [done|]. split; [|done]. by rewrite Hb4, Hb3, Hb2, Hb1.
Qed.

(** No state a run can reach is stuck: whatever the schedule so far, with
    pools of positive size some continuation drains and closes the open
    pool and then every batch that is left. *)
Theorem every_reachable_state_can_finish depth srv plan cs w s :
  Forall (λ p, 0 < max_workers p) plan →
  exec depth srv plan cs (start_run w) = Some s →
  ∃ cs' s', exec depth srv plan cs' s = Some s' ∧
            batch_no s' = length plan ∧ current s' = None.
Proof.
  intros Hsizes Hexec.
  pose proof (in_bounds_exec depth srv plan cs _ _ Hexec
                (in_bounds_start plan w)) as Hin.
  assert (Hclosed : ∃ cs1 s1, exec depth srv plan cs1 s = Some s1 ∧
                              current s1 = None ∧ in_bounds plan s1).
  { destruct (current s) as [a|] eqn:Hcur.
    - destruct (exec_closes_open_pool depth srv plan s a Hsizes Hin Hcur)
        as (cs1 & s1 & He1 & Hb1 & Hc1).
      exists cs1, s1. split; [done|]. split; [done|].
      by eapply in_bounds_exec.
    - by exists [], s. }
  destruct Hclosed as (cs1 & s1 & He1 & Hc1 & Hin1).
  destruct (exec_sequential depth srv plan Hsizes
              (drop (batch_no s1) plan) s1 eq_refl Hc1)
    as (s2 & He2 & Hb2 & Hc2).
  exists (cs1 ++ sequential (drop (batch_no s1) plan)), s2.
  rewrite exec_app, He1. simpl. split; [done|]. split; [|done].
  rewrite Hb2, length_drop. unfold in_bounds in Hin1. rewrite Hc1 in Hin1.
  lia.
Qed.

Lemma every_reachable_state_can_finish_witness :
  ∃ cs' s',
    exec 3 Sample.ready Sample.plan cs'
      {| batch_no := 0;
         current := Some {| next := 2; queued := []; running := [0; 1]%nat |};
         world := Sample.disk3;
         history := [AOpen 0 4; ASubmit 0 0 "in/a.pdf";
                     ASubmit 0 1 "in/e.pdf"; AStart 0 0; AStart 0 1] |}
    = Some s' ∧
    batch_no s' = length Sample.plan ∧ current s' = None.
Proof.
  apply (every_reachable_state_can_finish 3 Sample.ready Sample.plan
           [COpen; CSubmit; CSubmit; CStart; CStart] Sample.disk3).
  - unfold Sample.plan. vm_compute. repeat constructor.
  - vm_compute. reflexivity.
Defined.

(** ** C4: skipping an input whose output exists *)

(** C4.  When [force] is false and the destination file already exists,
    [process_pdf] returns at once: nothing escapes, the client and the files
    are untouched, the only new action is the skip message, and no request
    has been sent, whatever the server would have answered. *)
Theorem process_pdf_skips_before_any_request depth srv self path w :
  truthy (force self) = false →
  isfile w (destination self path) = true →
  ∃ w', process_pdf (S depth) srv self path w = (Ok tt, self, w') ∧
        trace w' = trace w ++ [EvSkip (destination self path)] ∧
        posts (trace w') = posts (trace w) ∧
        files w' = files w.
Proof.
  intros Hforce Hfile. rewrite process_pdf_unfold. cbv zeta.
  rewrite Hforce, Hfile.
  eexists; split; [reflexivity|]. split; [reflexivity|].
  split; [|reflexivity]. rewrite posts_log. apply app_nil_r.
Qed.

Lemma process_pdf_skips_before_any_request_witness :
  ∃ w', process_pdf 1 Sample.unreachable Sample.careful "in/a.pdf"
          Sample.disk_done = (Ok tt, Sample.careful, w') ∧
        trace w' = trace Sample.disk_done ++ [EvSkip "in/a.tei.xml"] ∧
        posts (trace w') = posts (trace Sample.disk_done) ∧
        files w' = files Sample.disk_done.
Proof.
  apply (process_pdf_skips_before_any_request 0 Sample.unreachable
           Sample.careful "in/a.pdf" Sample.disk_done); reflexivity.
Defined.

(** ** C9: a root that cannot be walked *)

Lemma invalid_root_does_not_raise : ¬ invalid_root_raises.
Proof.
  intros H.
  destruct (H (Some 4) Sample.fs Sample.fresh "processFulltextDocument"
              "nowhere" None) as [e He]; [by left|].
  vm_compute in He. discriminate He.
Qed.

(** C9, amended.  [os.walk] is called without an error handler, so a root
    that does not exist or is not a directory yields no triple: [process]
    returns normally, nothing is raised, and no pool is run. *)
Theorem process_invalid_root_is_an_empty_run n fs self sv input od :
  fs input = None ∨ fs input = Some File →
  snd (process n fs self sv input od) = (Ok tt, []).
Proof.
  intros H. unfold process, os_walk; simpl.
  by destruct H as [-> | ->].
Qed.

Lemma process_invalid_root_is_an_empty_run_witness :
  snd (process None Sample.fs Sample.fresh "processFulltextDocument"
         "in/a.pdf" None) = (Ok tt, []).
Proof.
  apply (process_invalid_root_is_an_empty_run None Sample.fs Sample.fresh
           "processFulltextDocument" "in/a.pdf" None).
  right. reflexivity.
Defined.

(** ** C3 and C5: the request after a 503, and [api_url] *)

(** C3.  Against a gateway that answers 503 twice and then 200 the client
    sleeps and retries, three requests are sent for the same file with the
    same form data and one output is written; but each request goes to a
    different URL, since every attempt appends "/api/<service>" to
    [self.api_url] again. *)
Theorem retry_after_503_changes_the_url :
  let '(r, _, w) := process_pdf 5 Sample.busy_twice Sample.client "in/a.pdf"
                      Sample.disk in
  r = Ok tt ∧
  req_url <$> posts (trace w)
  = ["http://localhost:8070/api/processFulltextDocument";
     "http://localhost:8070/api/processFulltextDocument/api/processFulltextDocument";
     "http://localhost:8070/api/processFulltextDocument/api/processFulltextDocument/api/processFulltextDocument"] ∧
  req_input_name <$> posts (trace w) = ["in/a.pdf"; "in/a.pdf"; "in/a.pdf"] ∧
  (λ r, map_to_list (req_data r)) <$> posts (trace w)
  = replicate 3 (map_to_list (_prepare_post_data Sample.client)) ∧
  omap (λ e, match e with EvSleep t => Some t | _ => None end) (trace w)
  = [5; 5] ∧
  omap (λ e, match e with EvWrite f b => Some (f, b) | _ => None end)
       (trace w)
  = [("in/a.tei.xml", "<TEI/>")].
Proof. vm_compute. repeat split. Qed.

(** C5.  A call of [process_pdf] that sends a request leaves the client with
    another [api_url] than it had. *)
Theorem process_pdf_assigns_api_url :
  api_url Sample.client = "http://localhost:8070" ∧
  let '(r, self', _) := process_pdf 5 Sample.ready Sample.client "in/a.pdf"
                          Sample.disk in
  r = Ok tt ∧
  api_url self' = "http://localhost:8070/api/processFulltextDocument".
Proof. vm_compute. repeat split. Qed.

(** In general: the field has changed whenever a request was sent. *)
Lemma process_pdf_request_changes_api_url depth srv self path w r self' w' :
  process_pdf depth srv self path w = (r, self', w') →
  (length (posts (trace w)) < length (posts (trace w')))%nat →
  api_url self' ≠ api_url self.
Proof.
  intros H Hlt. apply process_pdf_api_url_grows in H as (_ & _ & H).
  specialize (H Hlt). intros Heq. rewrite Heq in H. lia.
Qed.

(** ** C7: the size of the pool *)

(** C7.  [process_batch] sizes its pool by the module-level name [n], not by
    the client's [number_of_processes].  A client built by an importing
    program with [number_of_processes=4] finds [n] unbound: the first batch
    raises [NameError] and no pool is run.  And were [n] bound to 10, the
    pool would have 10 workers, not 4. *)
Theorem pool_size_ignores_number_of_processes :
  number_of_processes Sample.four = PInt 4 ∧
  snd (process None Sample.fs Sample.four "processFulltextDocument" "in" None)
  = (Raise NameError, []) ∧
  max_workers <$> snd (snd (process (Some 10) Sample.fs Sample.four
                              "processFulltextDocument" "in" None))
  = [10; 10].
Proof. vm_compute. repeat split. Qed.

(** The pool always has the size [n] is bound to. *)
Lemma process_batch_max_workers n self paths pools pools' :
  process_batch n self paths pools = (Ok tt, pools') →
  ∃ k, n = Some k ∧ 0 < k ∧
       pools' = pools ++ [{| max_workers := k; pool_self := self;
                             submitted := paths |}].
Proof.
  unfold process_batch. destruct n as [k|]; [|done].
  destruct (Z.leb_spec k 0); [done|]. intros [= <-]. eauto.
Qed.

(** Run from the command line the two agree: the block binds [n] and passes
    the same number as [number_of_processes]. *)
Lemma main_number_of_processes cfg get_status int_of_str args self :
  main_client cfg get_status int_of_str args = Ok self →
  number_of_processes self = PInt (main_n int_of_str args).
Proof.
  unfold main_client, init. destruct (negb _); [done|].
  intros [= <-]. simpl. unfold main_options.
  by rewrite lookup_insert_eq.
Qed.

(** ** C6: destinations *)

Lemma span_tail_no_sep r t h :
  span_tail r = (t, h) → Forall (λ c, is_sep c = false) t.
Proof.
  revert t h. induction r as [|c r IH]; intros t h; simpl.
  { intros [= <- <-]. constructor. }
  destruct (is_sep c) eqn:Hc.
  { intros [= <- <-]. constructor. }
  destruct (span_tail r) as [t' h']. intros [= <- <-].
  constructor; [done|]. by eapply IH.
Qed.

Lemma is_sep_slash : is_sep slash = true.
Proof. reflexivity. Qed.

(** [ntpath.basename] never contains a "/". *)
Lemma basename_no_slash p : slash ∉ chars (ntpath_basename p).
Proof.
  unfold ntpath_basename, ntpath_split_l. rewrite chars_text.
  destruct (splitdrive_l (chars p)) as [d p'].
  destruct (span_tail (rev p')) as [rtail rhead] eqn:Hspan. simpl.
  apply span_tail_no_sep in Hspan. rewrite Forall_forall in Hspan.
  intros Hin. apply list_elem_of_In, in_rev, list_elem_of_In in Hin.
  apply Hspan in Hin. by rewrite is_sep_slash in Hin.
Qed.

Lemma splitext_l_root_subset p c : c ∈ fst (splitext_l p) → c ∈ p.
Proof.
  unfold splitext_l. destruct (rfind dot p) as [dotIndex|]; [|done].
  destruct (_ <=? _)%nat; [|done].
  destruct (forallb _ _); [done|]. simpl.
  intros Hin. by eapply subseteq_take.
Qed.

Lemma chars_fst_splitext p :
  chars (fst (splitext p)) = fst (splitext_l (chars p)).
Proof.
  unfold splitext. destruct (splitext_l (chars p)) as [root ext]; simpl.
  apply chars_text.
Qed.

Lemma stem_no_slash p : slash ∉ chars (stem p).
Proof.
  unfold stem. rewrite chars_fst_splitext. intros Hin.
  apply splitext_l_root_subset in Hin. by apply basename_no_slash in Hin.
Qed.

Lemma output_name_no_slash p : slash ∉ chars (stem p +:+ ".tei.xml").
Proof.
  rewrite chars_app, elem_of_app. intros [Hin|Hin].
  - by apply stem_no_slash in Hin.
  - vm_compute in Hin.
    repeat (apply elem_of_cons in Hin as [Hin|Hin]; [discriminate Hin|]).
    by apply elem_of_nil in Hin.
Qed.

(** [os.path.join(a, b)] for a [b] without "/": [b] follows a prefix that is
    empty or ends in "/". *)
Lemma path_join_shape a b :
  slash ∉ chars b →
  ∃ pre, chars (path_join a b) = pre ++ chars b ∧
         (rev pre = [] ∨ ∃ t, rev pre = slash :: t).
Proof.
  intros Hb. unfold path_join.
  assert (Hstart : startswith_l [slash] (chars b) = false).
  { destruct (chars b) as [|c l]; [done|]. cbn [startswith_l].
    apply not_elem_of_cons in Hb as [Hne _].
    rewrite andb_true_r. apply not_true_is_false.
    intros Heq%Ascii.eqb_eq. congruence. }
  rewrite Hstart.
  destruct (bool_decide (a = "")) eqn:Ha; simpl.
  { apply bool_decide_eq_true in Ha as ->. exists []. split; [done|by left]. }
  destruct (endswith a "/") eqn:Hend.
  - exists (chars a). split; [by rewrite chars_app|]. right.
    unfold endswith in Hend.
    change (rev (chars "/")) with [slash] in Hend.
    destruct (rev (chars a)) as [|c t]; [done|].
    cbn [startswith_l] in Hend.
    apply andb_true_iff in Hend as [Hc%Ascii.eqb_eq _].
    exists t. by rewrite <- Hc.
  - exists (chars a ++ [slash]). split.
    + by rewrite !chars_app, <- app_assoc.
    + right. exists (rev (chars a)). by rewrite rev_app_distr.
Qed.

(** A "/"-free front is fixed by what follows the first "/". *)
Lemma slash_free_front (l1 l2 s1 s2 : list ascii) :
  slash ∉ l1 → slash ∉ l2 →
  (s1 = [] ∨ ∃ t, s1 = slash :: t) → (s2 = [] ∨ ∃ t, s2 = slash :: t) →
  l1 ++ s1 = l2 ++ s2 → l1 = l2.
Proof.
  revert l2. induction l1 as [|x l1 IH]; intros [|y l2] H1 H2 Hs1 Hs2; simpl.
  - done.
  - intros ->. destruct Hs1 as [Hs1|(t & Hs1)]; [done|].
    injection Hs1 as -> _. by apply not_elem_of_cons in H2 as [? _].
  - intros <-. destruct Hs2 as [Hs2|(t & Hs2)]; [done|].
    injection Hs2 as -> _. by apply not_elem_of_cons in H1 as [? _].
  - intros [= -> Heq]. f_equal.
    apply not_elem_of_cons in H1 as [_ H1].
    apply not_elem_of_cons in H2 as [_ H2]. by eapply IH.
Qed.

Lemma not_elem_of_rev (c : ascii) l : c ∉ l → c ∉ rev l.
Proof. intros H Hin. by apply list_elem_of_In, in_rev, list_elem_of_In in Hin. Qed.

Lemma path_join_inj_name a1 a2 b1 b2 :
  slash ∉ chars b1 → slash ∉ chars b2 →
  path_join a1 b1 = path_join a2 b2 → b1 = b2.
Proof.
  intros H1 H2 Heq.
  destruct (path_join_shape a1 b1 H1) as (pre1 & E1 & S1).
  destruct (path_join_shape a2 b2 H2) as (pre2 & E2 & S2).
  rewrite Heq, E2 in E1. apply (f_equal (@rev ascii)) in E1.
  rewrite !rev_app_distr in E1.
  apply slash_free_front in E1; [|by apply not_elem_of_rev..|done|done].
  apply chars_inj. rewrite <- (rev_involutive (chars b1)), <- E1.
  by rewrite rev_involutive.
Qed.

Lemma same_name_same_destination : ¬ destinations_are_unique.
Proof.
  intros H.
  apply (H Sample.fs "twins" Sample.collecting
           "twins/a/x.pdf" "twins/b/x.pdf").
  - vm_compute. in_list.
  - vm_compute. in_list.
  - discriminate.
  - reflexivity.
Qed.

(** ** C8: which files are discovered *)


Lemma startswith_l_app pre a b :
  startswith_l pre a = true → startswith_l pre (a ++ b) = true.
Proof.
  revert a. induction pre as [|c pre IH]; intros [|x a]; simpl; try done.
  intros [-> H]%andb_true_iff. by rewrite IH.
Qed.

Lemma startswith_l_before pre a c b :
  c ∉ pre →
  startswith_l pre (a ++ c :: b) = true → startswith_l pre a = true.
Proof.
  revert a. induction pre as [|x pre IH]; intros a Hc; [done|].
  apply not_elem_of_cons in Hc as [Hne Hc].
  destruct a as [|y a]; simpl.
  - intros [Hx _]%andb_true_iff. apply Ascii.eqb_eq in Hx. congruence.
  - intros [-> H]%andb_true_iff. simpl. by apply IH.
Qed.

(** The test on the file name and the test on the joined path agree. *)
Lemma endswith_sep_join d name suf :
  slash ∉ chars suf →
  endswith (sep_join d name) suf = endswith name suf.
Proof.
  intros Hs. unfold endswith, sep_join. rewrite !chars_app; simpl.
  rewrite rev_app_distr; simpl. rewrite <- app_assoc; simpl.
  destruct (startswith_l (rev (chars suf)) (rev (chars name))) eqn:Hn.
  - by apply startswith_l_app.
  - apply not_true_is_false. intros H.
    apply startswith_l_before in H; [congruence|].
    by rewrite list_elem_of_In, <- in_rev, <- list_elem_of_In.
Qed.

Lemma matching_sep_join d name : matching (sep_join d name) = matching name.
Proof.
  unfold matching. rewrite !endswith_sep_join; [done| |].
  - vm_compute. intros H.
    repeat (apply elem_of_cons in H as [H|H]; [discriminate H|]).
    by apply elem_of_nil in H.
  - vm_compute. intros H.
    repeat (apply elem_of_cons in H as [H|H]; [discriminate H|]).
    by apply elem_of_nil in H.
Qed.

Lemma elem_of_concat {A} (x : A) (ls : list (list A)) :
  x ∈ concat ls ↔ ∃ l, x ∈ l ∧ l ∈ ls.
Proof.
  induction ls as [|l ls IH]; simpl.
  - split; [by intros ?%elem_of_nil|]. by intros (? & _ & ?%elem_of_nil).
  - rewrite elem_of_app, IH. split.
    + intros [H|(l' & H & Hl')]; [exists l|exists l']; split; try done;
        [left|by right].
    + intros (l' & H & [->|Hl']%elem_of_cons); [by left|right; eauto].
Qed.









(** ** C10: the defaults of the option flags *)

(** C10.  Whenever the server answers the probe, a client built without the
    option keywords exists and has [generate_ids], [consolidate_header],
    [consolidate_citations], [force] and [tei_coordinates] all [True]; with
    that default [force] an input whose destination already exists is
    submitted and the destination overwritten with the new body.  The
    command-line block passes the five flags of the namespace as keyword
    arguments, so the client it builds has each flag as the namespace has
    it; on a command line that gives none of the optional arguments the
    five are [False], and so are the five flags of the client. *)
Theorem option_flags_default_true_cli_false :
  (∀ cfg get_status kwargs,
     get_status (api_base cfg +:+ "/api/isalive") = 200 →
     kwargs !! "generate_ids" = None →
     kwargs !! "consolidate_header" = None →
     kwargs !! "consolidate_citations" = None →
     kwargs !! "force" = None →
     kwargs !! "tei_coordinates" = None →
     ∃ self,
       init cfg get_status kwargs = Ok self ∧
       generate_ids self = PBool true ∧ consolidate_header self = PBool true ∧
       consolidate_citations self = PBool true ∧ force self = PBool true ∧
       tei_coordinates self = PBool true) ∧
  (∀ depth srv self path w file body,
     force self = PBool true →
     isfile w (destination self path) = true →
     files w !! path = Some file →
     destination self path ∉ readonly w →
     (∀ seen r, srv seen r = Ok (200, body)) →
     ∃ self' w',
       process_pdf (S depth) srv self path w = (Ok tt, self', w') ∧
       length (posts (trace w')) = S (length (posts (trace w))) ∧
       files w' !! destination self path = Some body) ∧
  (∀ cfg get_status int_of_str args,
     get_status (api_base cfg +:+ "/api/isalive") = 200 →
     ∃ self,
       main_client cfg get_status int_of_str args = Ok self ∧
       generate_ids self = PBool (ns_generateIDs args) ∧
       consolidate_header self = PBool (ns_consolidate_header args) ∧
       consolidate_citations self = PBool (ns_consolidate_citations args) ∧
       force self = PBool (ns_force args) ∧
       tei_coordinates self = PBool (ns_teiCoordinates args)) ∧
  (∀ cfg get_status int_of_str sv,
     get_status (api_base cfg +:+ "/api/isalive") = 200 →
     ∃ self,
       main_client cfg get_status int_of_str (default_namespace sv)
       = Ok self ∧
       generate_ids self = PBool false ∧ consolidate_header self = PBool false ∧
       consolidate_citations self = PBool false ∧ force self = PBool false ∧
       tei_coordinates self = PBool false).
Proof.
  assert (Hcli : ∀ cfg get_status int_of_str args,
     get_status (api_base cfg +:+ "/api/isalive") = 200 →
     ∃ self,
       main_client cfg get_status int_of_str args = Ok self ∧
       generate_ids self = PBool (ns_generateIDs args) ∧
       consolidate_header self = PBool (ns_consolidate_header args) ∧
       consolidate_citations self = PBool (ns_consolidate_citations args) ∧
       force self = PBool (ns_force args) ∧
       tei_coordinates self = PBool (ns_teiCoordinates args)).
  { intros cfg get_status int_of_str args Hup.
    unfold main_client, init, _is_alive. fold (api_base cfg).
    rewrite bool_decide_eq_true_2 by done. cbn [negb].
    eexists; split; [reflexivity|].
    cbn [generate_ids consolidate_header consolidate_citations force
         tei_coordinates].
    unfold main_options. repeat split; by simplify_map_eq. }
  split; [|split; [|split]].
  - intros cfg get_status kwargs Hup H1 H2 H3 H4 H5.
    unfold init, _is_alive. fold (api_base cfg).
    rewrite bool_decide_eq_true_2 by done. cbn [negb].
    eexists; split; [reflexivity|].
    cbn [generate_ids consolidate_header consolidate_citations force
         tei_coordinates].
    by rewrite H1, H2, H3, H4, H5.
  - intros depth srv self path w file body Hforce Hfile Hin Hrw Hsrv.
    rewrite process_pdf_unfold. cbv zeta.
    rewrite Hforce, Hin, Hsrv. simpl negb. cbv iota.
    change (200 =? 503) with false. change (negb (200 =? 200)) with false.
    cbv iota. rewrite bool_decide_eq_false_2 by done.
    eexists _, _; split; [reflexivity|]. split.
    + rewrite posts_write_file, !posts_log, !length_app; simpl. lia.
    + unfold write_file; simpl. apply lookup_insert_eq.
  - exact Hcli.
  - intros cfg get_status int_of_str sv Hup.
    apply (Hcli cfg get_status int_of_str (default_namespace sv) Hup).
Qed.

Lemma option_flags_default_true_cli_false_witness :
  (∃ self,
     init Sample.cfg Sample.up ∅ = Ok self ∧
     generate_ids self = PBool true ∧ consolidate_header self = PBool true ∧
     consolidate_citations self = PBool true ∧ force self = PBool true ∧
     tei_coordinates self = PBool true) ∧
  (∃ self' w',
     process_pdf 1 Sample.ready Sample.client "in/a.pdf" Sample.disk_done
     = (Ok tt, self', w') ∧
     length (posts (trace w')) = S (length (posts (trace Sample.disk_done))) ∧
     files w' !! destination Sample.client "in/a.pdf" = Some "<TEI/>") ∧
  (∃ self,
     main_client Sample.cfg Sample.up (λ _, None)
       (default_namespace "processFulltextDocument") = Ok self ∧
     generate_ids self = PBool false ∧ consolidate_header self = PBool false ∧
     consolidate_citations self = PBool false ∧ force self = PBool false ∧
     tei_coordinates self = PBool false).
Proof.
  destruct option_flags_default_true_cli_false
    as (Hinit & Hforce & _ & Hcli).
  split; [|split].
  - apply (Hinit Sample.cfg Sample.up ∅); reflexivity.
  - apply (Hforce 0%nat Sample.ready Sample.client "in/a.pdf"
             Sample.disk_done "%PDF-a" "<TEI/>");
      [reflexivity|reflexivity|reflexivity| |reflexivity].
    unfold Sample.disk_done; simpl readonly. set_solver.
  - apply (Hcli Sample.cfg Sample.up (λ _, None) "processFulltextDocument").
    reflexivity.
Defined.

(** * Further properties of the code *)

(** ** [process_pdf]: what one call does *)

Lemma sleeps_app (t u : list event) : sleeps (t ++ u) = sleeps t ++ sleeps u.
Proof. apply omap_app. Qed.

Lemma sleeps_log (e : event) (w : World) :
  sleeps (trace (log e w))
  = sleeps (trace w) ++ match e with EvSleep s => [s] | _ => [] end.
Proof. unfold log; simpl. rewrite sleeps_app. by destruct e. Qed.


(** The input file is missing: [open] raises before anything is sent or
    assigned. *)
Theorem process_pdf_missing_input_raises depth srv self path w :
  not_skipped self path w → files w !! path = None →
  ∃ w', process_pdf (S depth) srv self path w = (Raise OSError, self, w') ∧
        posts (trace w') = posts (trace w) ∧ files w' = files w.
Proof.
  intros Hskip Hin. rewrite process_pdf_unfold. cbv zeta.
  unfold not_skipped in Hskip. rewrite Hskip, Hin.
  eexists. split; [reflexivity|]. split; [|reflexivity].
  rewrite posts_log. apply app_nil_r.
Qed.

Lemma process_pdf_missing_input_raises_witness :
  ∃ w', process_pdf 1 Sample.ready Sample.client "in/zz.pdf" Sample.disk
        = (Raise OSError, Sample.client, w') ∧
        posts (trace w') = posts (trace Sample.disk) ∧
        files w' = files Sample.disk.
Proof.
  apply (process_pdf_missing_input_raises 0 Sample.ready Sample.client
           "in/zz.pdf" Sample.disk); reflexivity.
Defined.

(** Round trip: when the first answer is 200, the destination holds the
    response body exactly, after a single request, and no other file has
    changed. *)
Theorem process_pdf_writes_the_body depth srv self path w file body :
  not_skipped self path w → files w !! path = Some file →
  srv (posts (trace w)) (first_request self path file) = Ok (200, body) →
  destination self path ∉ readonly w →
  ∃ self' w',
    process_pdf (S depth) srv self path w = (Ok tt, self', w') ∧
    files w' = <[destination self path := body]> (files w) ∧
    posts (trace w') = posts (trace w) ++ [first_request self path file].
Proof.
  intros Hskip Hin Hsrv Hrw. rewrite process_pdf_unfold. cbv zeta.
  unfold not_skipped in Hskip. rewrite Hskip, Hin.
  change (Build_Request _ _ _ _ _ _ _) with (first_request self path file).
  rewrite Hsrv. change (200 =? 503) with false.
  change (negb (200 =? 200)) with false. cbv iota.
  rewrite bool_decide_eq_false_2 by done.
  eexists _, _. split; [reflexivity|]. split; [reflexivity|].
  rewrite posts_write_file, !posts_log. simpl. by rewrite app_nil_r.
Qed.

Lemma process_pdf_writes_the_body_witness :
  ∃ self' w',
    process_pdf 1 Sample.ready Sample.client "in/a.pdf" Sample.disk
    = (Ok tt, self', w') ∧
    files w' = <[destination Sample.client "in/a.pdf" := "<TEI/>"]>
                 (files Sample.disk) ∧
    posts (trace w')
    = posts (trace Sample.disk)
      ++ [first_request Sample.client "in/a.pdf" "%PDF-a"].
Proof.
  apply (process_pdf_writes_the_body 0 Sample.ready Sample.client "in/a.pdf"
           Sample.disk "%PDF-a" "<TEI/>"); try reflexivity.
  unfold Sample.disk; simpl readonly. set_solver.
Defined.

(** A status other than 200 and 503 is reported and dropped: the call
    returns normally after one request, without sleeping or retrying, and
    the files are as before. *)
Theorem process_pdf_other_status_is_dropped depth srv self path w file
    status body :
  not_skipped self path w → files w !! path = Some file →
  srv (posts (trace w)) (first_request self path file) = Ok (status, body) →
  status ≠ 200 → status ≠ 503 →
  ∃ self' w',
    process_pdf (S depth) srv self path w = (Ok tt, self', w') ∧
    files w' = files w ∧
    posts (trace w') = posts (trace w) ++ [first_request self path file] ∧
    sleeps (trace w') = sleeps (trace w) ∧
    last (trace w') = Some (EvFailed status).
Proof.
  intros Hskip Hin Hsrv H200 H503. rewrite process_pdf_unfold. cbv zeta.
  unfold not_skipped in Hskip. rewrite Hskip, Hin.
  change (Build_Request _ _ _ _ _ _ _) with (first_request self path file).
  rewrite Hsrv.
  destruct (Z.eqb_spec status 503) as [?|_]; [done|].
  destruct (Z.eqb_spec status 200) as [?|_]; [done|]. cbv iota. simpl negb.
  cbv iota.
  eexists _, _. split; [reflexivity|]. split; [reflexivity|].
  split; [|split].
  - rewrite !posts_log. simpl. by rewrite !app_nil_r.
  - rewrite !sleeps_log. simpl. by rewrite !app_nil_r.
  - unfold log; simpl. apply last_snoc.
Qed.

Lemma process_pdf_other_status_is_dropped_witness :
  ∃ self' w',
    process_pdf 1 (λ _ _, Ok (400, "bad")) Sample.client "in/a.pdf"
      Sample.disk = (Ok tt, self', w') ∧
    files w' = files Sample.disk ∧
    posts (trace w')
    = posts (trace Sample.disk)
      ++ [first_request Sample.client "in/a.pdf" "%PDF-a"] ∧
    sleeps (trace w') = sleeps (trace Sample.disk) ∧
    last (trace w') = Some (EvFailed 400).
Proof.
  apply (process_pdf_other_status_is_dropped 0 (λ _ _, Ok (400, "bad"))
           Sample.client "in/a.pdf" Sample.disk "%PDF-a" 400 "bad");
    try reflexivity; discriminate.
Defined.

(** The destination cannot be opened for writing: the [OSError] is caught,
    the call returns normally and the files are as before. *)
Theorem process_pdf_write_error_is_caught depth srv self path w file body :
  not_skipped self path w → files w !! path = Some file →
  srv (posts (trace w)) (first_request self path file) = Ok (200, body) →
  destination self path ∈ readonly w →
  ∃ self' w',
    process_pdf (S depth) srv self path w = (Ok tt, self', w') ∧
    files w' = files w ∧
    last (trace w') = Some (EvWriteFailed (destination self path)).
Proof.
  intros Hskip Hin Hsrv Hrw. rewrite process_pdf_unfold. cbv zeta.
  unfold not_skipped in Hskip. rewrite Hskip, Hin.
  change (Build_Request _ _ _ _ _ _ _) with (first_request self path file).
  rewrite Hsrv. change (200 =? 503) with false.
  change (negb (200 =? 200)) with false. cbv iota.
  rewrite bool_decide_eq_true_2 by done.
  eexists _, _. split; [reflexivity|]. split; [reflexivity|].
  unfold log; simpl. apply last_snoc.
Qed.

Lemma process_pdf_write_error_is_caught_witness :
  ∃ self' w',
    process_pdf 1 Sample.ready Sample.client "in/a.pdf" disk_locked
    = (Ok tt, self', w') ∧
    files w' = files disk_locked ∧
    last (trace w')
    = Some (EvWriteFailed (destination Sample.client "in/a.pdf")).
Proof.
  apply (process_pdf_write_error_is_caught 0 Sample.ready Sample.client
           "in/a.pdf" disk_locked "%PDF-a" "<TEI/>"); reflexivity.
Defined.

(** ** [process_pdf]: over all its retries *)

(** Whatever the server answers and however often the call retries, it
    changes no file but its destination, and never what can be written. *)
Theorem process_pdf_touches_only_its_destination depth srv self path w f :
  f ≠ destination self path →
  files (snd (process_pdf depth srv self path w)) !! f = files w !! f ∧
  readonly (snd (process_pdf depth srv self path w)) = readonly w.
Proof.
  intros Hf. revert self w Hf.
  induction depth as [|depth IH]; intros self w Hf; [done|].
  rewrite process_pdf_unfold. cbv zeta.
  destruct (negb _ && _); [done|].
  destruct (files w !! path) as [file|]; [|done].
  destruct (srv _ _) as [[status body]|e]; [|done].
  destruct (status =? 503).
  { match goal with
    | |- context [process_pdf depth srv ?self1 path ?w1] =>
        destruct (IH self1 w1) as [IH1 IH2]; [exact Hf|]
    end.
    by rewrite IH1, IH2. }
  destruct (negb _); [done|]. destruct (bool_decide _); [done|].
  simpl. split; [|done]. by rewrite lookup_insert_ne.
Qed.

Lemma process_pdf_touches_only_its_destination_witness :
  files (snd (process_pdf 5 Sample.busy_twice Sample.client "in/a.pdf"
                Sample.disk)) !! "in/a.pdf" = files Sample.disk !! "in/a.pdf"
  ∧ readonly (snd (process_pdf 5 Sample.busy_twice Sample.client "in/a.pdf"
                     Sample.disk)) = readonly Sample.disk.
Proof.
  apply (process_pdf_touches_only_its_destination 5 Sample.busy_twice
           Sample.client "in/a.pdf" Sample.disk "in/a.pdf").
  discriminate.
Defined.

(** Every request of a call carries the same file under the same name, the
    same content type, form data and headers: the requests of one call
    differ in their URL only. *)
Theorem process_pdf_requests_carry_the_same_file depth srv self path w :
  ∃ rs,
    posts (trace (snd (process_pdf depth srv self path w)))
    = posts (trace w) ++ rs ∧
    Forall (λ r, req_input_name r = path ∧
                 files w !! path = Some (req_input_body r) ∧
                 req_input_type r = "application/pdf" ∧
                 req_data r = _prepare_post_data self ∧
                 req_headers r = {["Accept" := "text/plain"]}) rs.
Proof.
  revert self w. induction depth as [|depth IH]; intros self w.
  { exists []. by rewrite app_nil_r. }
  rewrite process_pdf_unfold. cbv zeta.
  destruct (negb _ && _).
  { exists []. cbn [snd]. rewrite posts_log, !app_nil_r. done. }
  destruct (files w !! path) as [file|] eqn:Hin.
  2:{ exists []. cbn [snd]. rewrite posts_log, !app_nil_r. done. }
  set (r1 := Build_Request _ _ _ _ _ _ _).
  assert (Hr1 : req_input_name r1 = path ∧
                Some file = Some (req_input_body r1) ∧
                req_input_type r1 = "application/pdf" ∧
                req_data r1 = _prepare_post_data self ∧
                req_headers r1 = {["Accept" := "text/plain"]}) by done.
  assert (H1 : posts (trace (log (EvPost r1) (log (EvProcessing path) w)))
               = posts (trace w) ++ [r1]).
  { rewrite !posts_log. simpl. by rewrite app_nil_r. }
  clearbody r1.
  destruct (srv _ _) as [[status body]|e].
  2:{ exists [r1]. cbn [snd]. split; [exact H1|]. by constructor. }
  destruct (status =? 503).
  { match goal with
    | |- context [process_pdf depth srv ?self1 path ?w1] =>
        destruct (IH self1 w1) as (rs & Hposts & Hall)
    end.
    exists (r1 :: rs). split.
    - rewrite Hposts, posts_log, H1.
      by rewrite app_nil_r, <- app_assoc.
    - constructor; [done|].
      eapply Forall_impl; [exact Hall|]. simpl.
      intros r (? & Hf & ? & ? & ?). by rewrite <- Hin. }
  destruct (negb _).
  { exists [r1]. cbn [snd]. rewrite posts_log, H1.
    rewrite app_nil_r. split; [done|]. by constructor. }
  destruct (bool_decide _).
  - exists [r1]. cbn [snd]. rewrite posts_log, H1.
    rewrite app_nil_r. split; [done|]. by constructor.
  - exists [r1]. cbn [snd]. rewrite posts_write_file, H1.
    split; [done|]. by constructor.
Qed.



Lemma string_app_assoc (s t u : string) : (s +:+ t) +:+ u = s +:+ t +:+ u.
Proof. apply chars_inj. by rewrite !chars_app, app_assoc. Qed.



(** ** [process] and [process_batch]: the pools of a run *)

Lemma for_filenames_new_pools n self B d fns :
  ∀ buf pools r pools',
    for_filenames n self B d fns buf pools = (r, pools') →
    ∃ new, pools' = pools ++ new ∧ Forall (made_by n self) new.
Proof.
  induction fns as [|f fns IH]; intros buf pools r pools'; simpl.
  { intros [= <- <-]. exists []. by rewrite app_nil_r. }
  fold (matching f). destruct (matching f); [|apply IH].
  destruct (Z.of_nat (length (buf ++ [sep_join d f])) =? B); [|apply IH].
  unfold bind, process_batch. destruct n as [k|].
  2:{ intros [= <- <-]. exists []. by rewrite app_nil_r. }
  destruct (Z.leb_spec k 0) as [?|Hk].
  { intros [= <- <-]. exists []. by rewrite app_nil_r. }
  intros Hrun. apply IH in Hrun as (new & -> & Hnew).
  eexists (_ :: new). split; [by rewrite <- app_assoc|].
  constructor; [|done]. repeat split; simpl; try done.
  by destruct buf.
Qed.

Lemma for_walk_new_pools n self B triples :
  ∀ buf pools r pools',
    for_walk n self B triples buf pools = (r, pools') →
    ∃ new, pools' = pools ++ new ∧ Forall (made_by n self) new.
Proof.
  induction triples as [|[[d dirs] fns] triples IH];
    intros buf pools r pools'; simpl.
  { intros [= <- <-]. exists []. by rewrite app_nil_r. }
  unfold bind.
  destruct (for_filenames n self B d fns buf pools) as [[buf1|e] pools1]
    eqn:Hfiles.
  - apply for_filenames_new_pools in Hfiles as (new1 & -> & Hnew1).
    intros Hrun. apply IH in Hrun as (new & -> & Hnew).
    exists (new1 ++ new). split; [by rewrite app_assoc|].
    by apply Forall_app.
  - apply for_filenames_new_pools in Hfiles as (new1 & -> & Hnew1).
    intros [= <- <-]. by exists new1.
Qed.

Lemma process_new_pools n fs self sv input od :
  Forall (made_by n (set_run self sv od))
    (snd (snd (process n fs self sv input od))).
Proof.
  unfold process; simpl. unfold bind.
  destruct (for_walk n (set_run self sv od) (batch_size (config self))
              (os_walk fs input) [] []) as [[buf|e] pools] eqn:Hwalk.
  - apply for_walk_new_pools in Hwalk as (new & -> & Hnew). simpl.
    destruct buf as [|p buf]; simpl; [done|].
    unfold process_batch. destruct n as [k|]; [|done].
    destruct (Z.leb_spec k 0) as [?|Hk]; [done|]. simpl.
    apply Forall_app. split; [done|]. by repeat constructor.
  - by apply for_walk_new_pools in Hwalk as (new & -> & Hnew).
Qed.

(** Every pool of a run, however the run ends, has the size [n] is bound
    to, submits the method of the client as [process] has set it up (its
    [service] and [output_directory] assigned), and is never empty. *)
Theorem process_pools_are_made_alike n fs self sv input od p :
  p ∈ snd (snd (process n fs self sv input od)) →
  n = Some (max_workers p) ∧ 0 < max_workers p ∧
  pool_self p = set_run self sv od ∧ submitted p ≠ [].
Proof.
  intros Hp.
  pose proof (process_new_pools n fs self sv input od) as Hall.
  rewrite Forall_forall in Hall. exact (Hall p Hp).
Qed.

Lemma process_pools_are_made_alike_witness :
  Some 4 = Some 4 ∧ 0 < 4 ∧
  set_run Sample.fresh "processFulltextDocument" None
  = set_run Sample.fresh "processFulltextDocument" None ∧
  ["in/sub/b.PDF"] ≠ [].
Proof.
  apply (process_pools_are_made_alike (Some 4) Sample.fs Sample.fresh
           "processFulltextDocument" "in" None
           {| max_workers := 4;
              pool_self := set_run Sample.fresh "processFulltextDocument" None;
              submitted := ["in/sub/b.PDF"] |}).
  vm_compute. in_list.
Defined.

(** The pools of a run hold the discovered paths, each once and in
    traversal order, whatever the batch size (zero and negative included). *)
Theorem process_pools_partition_the_discovered k fs self sv input od :
  0 < k →
  fst (snd (process (Some k) fs self sv input od)) = Ok tt ∧
  concat (submitted <$> snd (snd (process (Some k) fs self sv input od)))
  = discovered (os_walk fs input).
Proof.
  intros Hk.
  destruct (process_gathers k fs self sv input od Hk)
    as (pools & buf & [Hall _] & ->).
  split; [done|]. simpl. rewrite Hall, fmap_app, concat_app.
  f_equal. destruct buf; simpl; [done|]. by rewrite app_nil_r.
Qed.

Lemma process_pools_partition_the_discovered_witness :
  fst (snd (process (Some 4) Sample.fs Sample.fresh
              "processFulltextDocument" "in" None)) = Ok tt ∧
  concat (submitted <$> snd (snd (process (Some 4) Sample.fs Sample.fresh
                                    "processFulltextDocument" "in" None)))
  = discovered (os_walk Sample.fs "in").
Proof.
  apply (process_pools_partition_the_discovered 4 Sample.fs Sample.fresh
           "processFulltextDocument" "in" None).
  reflexivity.
Defined.

Lemma discovered_matching triples path :
  path ∈ discovered triples → matching path = true.
Proof.
  induction triples as [|[[d dirs] fns] triples IH].
  { by intros ?%elem_of_nil. }
  rewrite discovered_cons, elem_of_app. intros [Hin|Hin]; [|by apply IH].
  apply list_elem_of_fmap in Hin as (f & -> & [Hm _]%list_elem_of_filter).
  by rewrite matching_sep_join.
Qed.

(** Nothing but a path ending in ".pdf" or ".PDF" is ever submitted. *)
Theorem process_submits_pdf_paths_only k fs self sv input od p path :
  0 < k →
  p ∈ snd (snd (process (Some k) fs self sv input od)) →
  path ∈ submitted p →
  endswith path ".pdf" = true ∨ endswith path ".PDF" = true.
Proof.
  intros Hk Hp Hpath.
  destruct (process_gathers k fs self sv input od Hk)
    as (pools & buf & [Hall _] & Hrun).
  rewrite Hrun in Hp. simpl in Hp.
  apply orb_true_iff. fold (matching path).
  apply (discovered_matching (os_walk fs input)). rewrite Hall.
  apply elem_of_app in Hp as [Hp|Hp].
  - apply elem_of_app. left. apply elem_of_concat.
    exists (submitted p). split; [done|]. by apply list_elem_of_fmap_2.
  - apply elem_of_app. right. destruct buf; [by apply elem_of_nil in Hp|].
    apply list_elem_of_singleton in Hp as ->. done.
Qed.

Lemma process_submits_pdf_paths_only_witness :
  endswith "in/sub/b.PDF" ".pdf" = true
  ∨ endswith "in/sub/b.PDF" ".PDF" = true.
Proof.
  apply (process_submits_pdf_paths_only 4 Sample.fs Sample.fresh
           "processFulltextDocument" "in" None
           {| max_workers := 4;
              pool_self := set_run Sample.fresh "processFulltextDocument" None;
              submitted := ["in/sub/b.PDF"] |} "in/sub/b.PDF");
    [reflexivity| |in_list].
  vm_compute. in_list.
Defined.

(** With a batch size that is zero or negative the buffer never reaches it:
    the loops submit nothing and keep every matching path. *)
Lemma for_filenames_never_flushes n self B d fns :
  B ≤ 0 →
  ∀ buf pools,
    for_filenames n self B d fns buf pools
    = (Ok (buf ++ (sep_join d <$> filter (λ f, matching f = true) fns)),
       pools).
Proof.
  intros HB. induction fns as [|f fns IH]; intros buf pools; simpl.
  { by rewrite app_nil_r. }
  fold (matching f). destruct (matching f) eqn:Hm.
  - rewrite filter_cons_True by done. rewrite fmap_cons.
    destruct (Z.eqb_spec (Z.of_nat (length (buf ++ [sep_join d f]))) B)
      as [Heq|_].
    { rewrite length_app in Heq. simpl in Heq. lia. }
    rewrite IH. by rewrite <- app_assoc.
  - rewrite filter_cons_False by (by rewrite Hm). apply IH.
Qed.

Lemma for_walk_never_flushes n self B triples :
  B ≤ 0 →
  ∀ buf pools,
    for_walk n self B triples buf pools
    = (Ok (buf ++ discovered triples), pools).
Proof.
  intros HB. induction triples as [|[[d dirs] fns] triples IH];
    intros buf pools; simpl for_walk.
  { by rewrite app_nil_r. }
  unfold bind. rewrite for_filenames_never_flushes by done.
  rewrite IH, discovered_cons. by rewrite app_assoc.
Qed.

(** With the pool size bound and positive, a batch size of zero or less
    does not stop the run: every discovered path goes into one single pool,
    and nothing is run when nothing is discovered. *)
Theorem process_nonpositive_batch_size_is_one_batch k fs self sv input od :
  0 < k → batch_size (config self) ≤ 0 →
  snd (process (Some k) fs self sv input od)
  = (Ok tt,
     match discovered (os_walk fs input) with
     | [] => []
     | paths => [{| max_workers := k; pool_self := set_run self sv od;
                    submitted := paths |}]
     end).
Proof.
  intros Hk HB. unfold process; simpl. unfold bind.
  rewrite for_walk_never_flushes by done. simpl.
  destruct (discovered (os_walk fs input)) as [|p paths]; simpl; [done|].
  unfold process_batch. by destruct (Z.leb_spec k 0) as [?|_]; [lia|].
Qed.

Lemma process_nonpositive_batch_size_is_one_batch_witness :
  snd (process (Some 4) Sample.fs unbatched "processReferences" "in" None)
  = (Ok tt,
     match discovered (os_walk Sample.fs "in") with
     | [] => []
     | paths => [{| max_workers := 4;
                    pool_self := set_run unbatched "processReferences" None;
                    submitted := paths |}]
     end).
Proof.
  apply (process_nonpositive_batch_size_is_one_batch 4 Sample.fs unbatched
           "processReferences" "in" None); [reflexivity|].
  discriminate.
Defined.

Lemma process_batch_no_pool_size n self paths pools :
  no_pool_size n →
  process_batch n self paths pools = (Raise (pool_error n), pools).
Proof.
  intros [->|(k & -> & Hk)]; unfold process_batch; simpl; [done|].
  by destruct (Z.leb_spec k 0) as [_|?]; [|lia].
Qed.

Lemma for_filenames_no_pool_size n self B d fns :
  no_pool_size n →
  ∀ buf pools,
    (for_filenames n self B d fns buf pools
     = (Ok (buf ++ (sep_join d <$> filter (λ f, matching f = true) fns)),
        pools)) ∨
    (for_filenames n self B d fns buf pools = (Raise (pool_error n), pools) ∧
     filter (λ f, matching f = true) fns ≠ []).
Proof.
  intros Hn. induction fns as [|f fns IH]; intros buf pools; simpl.
  { left. by rewrite app_nil_r. }
  fold (matching f). destruct (matching f) eqn:Hm.
  - rewrite filter_cons_True by done. rewrite fmap_cons.
    destruct (Z.of_nat (length (buf ++ [sep_join d f])) =? B).
    + right. unfold bind. by rewrite process_batch_no_pool_size.
    + destruct (IH (buf ++ [sep_join d f]) pools) as [->|[-> _]].
      * left. by rewrite <- app_assoc.
      * by right.
  - rewrite filter_cons_False by (by rewrite Hm). apply IH.
Qed.

Lemma for_walk_no_pool_size n self B triples :
  no_pool_size n →
  ∀ buf pools,
    (for_walk n self B triples buf pools
     = (Ok (buf ++ discovered triples), pools)) ∨
    (for_walk n self B triples buf pools = (Raise (pool_error n), pools) ∧
     discovered triples ≠ []).
Proof.
  intros Hn. induction triples as [|[[d dirs] fns] triples IH];
    intros buf pools; simpl for_walk.
  { left. by rewrite app_nil_r. }
  unfold bind. rewrite discovered_cons.
  destruct (for_filenames_no_pool_size n self B d fns Hn buf pools)
    as [->|[-> Hne]].
  - destruct (IH (buf ++ (sep_join d <$> filter (λ f, matching f = true) fns))
                pools) as [->|[-> Hne]].
    + left. by rewrite app_assoc.
    + right. split; [done|]. intros [_ ?]%app_eq_nil. done.
  - right. split; [done|]. intros [H _]%app_eq_nil.
    by apply fmap_nil_inv in H.
Qed.

(** With the name [n] unbound ([NameError]) or not positive ([ValueError]),
    [process] raises as soon as a batch is due, hence exactly when the walk
    yields at least one matching file; no pool is ever run, and a walk
    without matching files passes unnoticed. *)
Theorem process_without_pool_size_raises n fs self sv input od :
  no_pool_size n →
  snd (process n fs self sv input od)
  = (match discovered (os_walk fs input) with
     | [] => Ok tt
     | _ => Raise (pool_error n)
     end, []).
Proof.
  intros Hn. unfold process; simpl. unfold bind.
  destruct (for_walk_no_pool_size n (set_run self sv od)
              (batch_size (config self)) (os_walk fs input) Hn [] [])
    as [->|[-> Hne]]; simpl.
  - destruct (discovered (os_walk fs input)) as [|p paths]; simpl; [done|].
    by rewrite process_batch_no_pool_size.
  - by destruct (discovered (os_walk fs input)).
Qed.

Lemma process_without_pool_size_raises_witness :
  snd (process (Some 0) Sample.fs Sample.fresh "processFulltextDocument"
         "in" None)
  = (match discovered (os_walk Sample.fs "in") with
     | [] => Ok tt
     | _ => Raise (pool_error (Some 0))
     end, []).
Proof.
  apply (process_without_pool_size_raises (Some 0) Sample.fs Sample.fresh
           "processFulltextDocument" "in" None).
  right. exists 0. split; [reflexivity|]. discriminate.
Defined.

(** ** C8: the files that are submitted *)





(** ** The destination path *)

Lemma startswith_l_prefix l k : startswith_l l (l ++ k) = true.
Proof.
  induction l as [|c l IH]; simpl; [done|].
  by rewrite Ascii.eqb_refl, IH.
Qed.

Lemma endswith_app s suf : endswith (s +:+ suf) suf = true.
Proof.
  unfold endswith. rewrite chars_app, rev_app_distr.
  apply startswith_l_prefix.
Qed.

Lemma destination_chars self path :
  ∃ pre, chars (destination self path)
         = pre ++ chars (stem path) ++ chars ".tei.xml".
Proof.
  unfold destination. fold (stem path).
  destruct (output_directory self) as [od|].
  - destruct (path_join_shape od (stem path +:+ ".tei.xml")
                (output_name_no_slash path)) as (pre & -> & _).
    exists pre. by rewrite chars_app.
  - destruct (path_join_shape (ntpath_dirname path)
                (stem path +:+ ".tei.xml")
                (output_name_no_slash path)) as (pre & -> & _).
    exists pre. by rewrite chars_app.
Qed.

(** Every destination ends in ".tei.xml", so no output is ever taken for an
    input by the test of [process], also when it is written into the input
    tree. *)
Theorem destination_is_never_an_input self path :
  endswith (destination self path) ".tei.xml" = true ∧
  endswith (destination self path) ".pdf" = false ∧
  endswith (destination self path) ".PDF" = false.
Proof.
  destruct (destination_chars self path) as (pre & Hchars).
  unfold endswith. rewrite Hchars, !app_assoc, rev_app_distr.
  split; [apply startswith_l_prefix|]. split; reflexivity.
Qed.

Lemma span_tail_split t c h :
  Forall (λ x, is_sep x = false) t → is_sep c = true →
  span_tail (t ++ c :: h) = (t, c :: h).
Proof.
  intros Ht Hc. induction Ht as [|x t Hx _ IH]; simpl.
  - by rewrite Hc.
  - by rewrite Hx, IH.
Qed.

Lemma plain_name_no_sep name :
  plain_name name = true → Forall (λ x, is_sep x = false) (chars name).
Proof.
  unfold plain_name. intros H. apply Forall_forall. intros c Hc.
  rewrite forallb_forall in H. apply list_elem_of_In in Hc.
  apply H in Hc. by destruct (is_sep c).
Qed.

Lemma splitdrive_plain d name :
  plain_directory d = true →
  splitdrive_l (chars d ++ slash :: chars name)
  = ([], chars d ++ slash :: chars name).
Proof.
  unfold plain_directory. intros [Hhead Hlast]%andb_true_iff.
  destruct (chars d) as [|c0 [|c1 l]]; [done| |].
  - cbn [app splitdrive_l]. apply negb_true_iff in Hhead. rewrite Hhead.
    cbn [andb]. reflexivity.
  - apply andb_true_iff in Hhead as [H01 Hc%negb_true_iff].
    apply negb_true_iff in H01.
    cbn [app splitdrive_l]. by rewrite H01, Hc.
Qed.

Lemma lstrip_seps_plain d :
  plain_directory d = true → lstrip_seps (rev (chars d)) = rev (chars d).
Proof.
  unfold plain_directory. intros [_ Hlast]%andb_true_iff.
  destruct (rev (chars d)) as [|c l]; [done|]. simpl.
  by apply negb_true_iff in Hlast as ->.
Qed.

Lemma ntpath_split_plain d name :
  plain_directory d = true → plain_name name = true →
  ntpath_split_l (chars (sep_join d name)) = (chars d, chars name).
Proof.
  intros Hd Hname. unfold sep_join, ntpath_split_l.
  rewrite chars_app. change (chars ("/" +:+ name)) with (slash :: chars name).
  rewrite (splitdrive_plain d name Hd).
  rewrite rev_app_distr. cbn [rev]. rewrite <- app_assoc. cbn [app].
  rewrite span_tail_split;
    [|by apply Forall_rev, plain_name_no_sep|done].
  cbn [lstrip_seps]. rewrite is_sep_slash, (lstrip_seps_plain d Hd).
  rewrite !rev_involutive.
  destruct (chars d) eqn:Hchars; [by unfold plain_directory in Hd;
                                     rewrite Hchars in Hd|].
  done.
Qed.

(** For an ordinary path [d/name] the Windows-style split agrees with the
    POSIX one, and without an output directory the output is written beside
    the input, under the input's name with the extension replaced. *)
Theorem destination_beside_the_input self d name :
  plain_directory d = true → plain_name name = true →
  output_directory self = None →
  ntpath_basename (sep_join d name) = name ∧
  ntpath_dirname (sep_join d name) = d ∧
  destination self (sep_join d name)
  = d +:+ "/" +:+ fst (splitext name) +:+ ".tei.xml".
Proof.
  intros Hd Hname Hod.
  assert (Hbase : ntpath_basename (sep_join d name) = name).
  { unfold ntpath_basename. rewrite ntpath_split_plain by done.
    apply text_chars. }
  assert (Hdir : ntpath_dirname (sep_join d name) = d).
  { unfold ntpath_dirname. rewrite ntpath_split_plain by done.
    apply text_chars. }
  split; [done|]. split; [done|].
  unfold destination. rewrite Hod, Hbase, Hdir.
  pose proof (output_name_no_slash (sep_join d name)) as Hno.
  unfold stem in Hno. rewrite Hbase in Hno.
  unfold path_join.
  assert (Hstart : startswith_l [slash]
                     (chars (fst (splitext name) +:+ ".tei.xml")) = false).
  { destruct (chars _) as [|c l]; [done|]. cbn [startswith_l].
    apply not_elem_of_cons in Hno as [Hne _]. rewrite andb_true_r.
    apply not_true_is_false. intros Heq%Ascii.eqb_eq. congruence. }
  rewrite Hstart.
  unfold plain_directory in Hd. apply andb_true_iff in Hd as [Hne Hlast].
  rewrite bool_decide_eq_false_2 by (intros ->; done).
  unfold endswith. change (rev (chars "/")) with [slash].
  destruct (rev (chars d)) as [|c l]; [done|]. cbn [startswith_l orb].
  assert (Hc : Ascii.eqb slash c = false).
  { apply not_true_is_false. intros <-%Ascii.eqb_eq. done. }
  by rewrite Hc.
Qed.

Lemma destination_beside_the_input_witness :
  ntpath_basename (sep_join "in/sub" "b.PDF") = "b.PDF" ∧
  ntpath_dirname (sep_join "in/sub" "b.PDF") = "in/sub" ∧
  destination Sample.client (sep_join "in/sub" "b.PDF")
  = "in/sub" +:+ "/" +:+ fst (splitext "b.PDF") +:+ ".tei.xml".
Proof.
  apply (destination_beside_the_input Sample.client "in/sub" "b.PDF");
    reflexivity.
Defined.

(** With an output directory every output lies in it: the file name part
    never starts with "/", so [os.path.join] never drops the directory, and
    it puts a "/" after the directory unless the directory is empty or ends
    in one. *)
Theorem destination_stays_in_output_directory self od path :
  output_directory self = Some od →
  destination self path
  = od +:+ (if bool_decide (od = "") || endswith od "/" then "" else "/")
       +:+ stem path +:+ ".tei.xml".
Proof.
  intros Hod. unfold destination. rewrite Hod. fold (stem path).
  pose proof (output_name_no_slash path) as Hno.
  unfold path_join.
  assert (Hstart : startswith_l [slash]
                     (chars (stem path +:+ ".tei.xml")) = false).
  { destruct (chars _) as [|c l]; [done|]. cbn [startswith_l].
    apply not_elem_of_cons in Hno as [Hne _]. rewrite andb_true_r.
    apply not_true_is_false. intros Heq%Ascii.eqb_eq. congruence. }
  rewrite Hstart.
  by destruct (bool_decide (od = "") || endswith od "/").
Qed.

Lemma destination_stays_in_output_directory_witness :
  destination Sample.collecting "twins/a/x.pdf"
  = "out" +:+ "/" +:+ stem "twins/a/x.pdf" +:+ ".tei.xml".
Proof.
  apply (destination_stays_in_output_directory Sample.collecting "out"
           "twins/a/x.pdf").
  reflexivity.
Defined.

Lemma find_sep_none l :
  Forall (λ x, is_sep x = false) l → find_sep l = None.
Proof.
  induction 1 as [|x l Hx _ IH]; simpl; [done|]. by rewrite Hx, IH.
Qed.

Lemma find_sep_first t c h :
  Forall (λ x, is_sep x = false) t → is_sep c = true →
  find_sep (t ++ c :: h) = Some (length t).
Proof.
  intros Ht Hc. induction Ht as [|x t Hx _ IH]; simpl.
  - by rewrite Hc.
  - by rewrite Hx, IH.
Qed.

(** A path that starts with two separators is read as a Windows share: for
    "//host/name" the whole path is taken for the drive, the base name is
    empty, and the output of every such input is the one file ".tei.xml",
    inside the input path or in the output directory. *)
Theorem destination_of_share_like_path self host name :
  plain_name host = true → host ≠ "" →
  plain_name name = true → name ≠ "" →
  let path := "//" +:+ host +:+ "/" +:+ name in
  ntpath_basename path = "" ∧
  ntpath_dirname path = path ∧
  destination self path
  = match output_directory self with
    | Some od => path_join od ".tei.xml"
    | None => path +:+ "/.tei.xml"
    end.
Proof.
  intros Hhost Hhne Hname Hnne path.
  assert (Hsplit : ntpath_split_l (chars path) = (chars path, [])).
  { unfold path, ntpath_split_l.
    change (chars ("//" +:+ host +:+ "/" +:+ name))
      with (slash :: slash :: chars (host +:+ "/" +:+ name)).
    rewrite chars_app.
    change (chars ("/" +:+ name)) with (slash :: chars name).
    pose proof (plain_name_no_sep host Hhost) as Hh.
    pose proof (plain_name_no_sep name Hname) as Hn.
    cbn [splitdrive_l]. rewrite is_sep_slash. cbn [andb].
    assert (Hhead : head_is_sep (chars host ++ slash :: chars name)
                    = false).
    { destruct (chars host) as [|c l] eqn:Hc.
      - exfalso. apply Hhne. apply chars_inj. by rewrite Hc.
      - simpl. by inversion Hh. }
    rewrite Hhead. cbn [negb].
    rewrite (find_sep_first _ _ _ Hh is_sep_slash).
    replace (drop (S (length (chars host)))
               (chars host ++ slash :: chars name)) with (chars name).
    2:{ rewrite cons_middle, app_assoc, drop_app_length'; [done|].
        rewrite length_app. simpl. lia. }
    rewrite (find_sep_none _ Hn). cbn [rev span_tail lstrip_seps].
    by rewrite app_nil_r. }
  assert (Hbase : ntpath_basename path = "").
  { unfold ntpath_basename. by rewrite Hsplit. }
  assert (Hdir : ntpath_dirname path = path).
  { unfold ntpath_dirname. rewrite Hsplit. apply text_chars. }
  split; [done|]. split; [done|].
  unfold destination. rewrite Hbase, Hdir.
  change (fst (splitext "") +:+ ".tei.xml") with ".tei.xml".
  destruct (output_directory self) as [od|]; [done|].
  unfold path_join. change (startswith_l [slash] (chars ".tei.xml")) with false.
  cbv iota.
  assert (Hne : path ≠ "") by done.
  rewrite (bool_decide_eq_false_2 _ Hne). cbn [orb].
  assert (Hend : endswith path "/" = false).
  { unfold endswith, path.
    rewrite !chars_app, !rev_app_distr.
    change (rev (chars "/")) with [slash].
    pose proof (plain_name_no_sep name Hname) as Hn.
    destruct (chars name) as [|c l] eqn:Hc using rev_ind.
    - exfalso. apply Hnne. apply chars_inj. by rewrite Hc.
    - rewrite rev_app_distr. cbn [rev app startswith_l].
      apply Forall_app in Hn as [_ Hx]. inversion Hx as [|? ? Hsep _]; subst.
      unfold is_sep in Hsep. apply orb_false_iff in Hsep as [Hs _].
      rewrite Ascii.eqb_sym in Hs. by rewrite Hs. }
  by rewrite Hend.
Qed.

Lemma destination_of_share_like_path_witness :
  ntpath_basename ("//" +:+ "data" +:+ "/" +:+ "x.pdf") = "" ∧
  ntpath_dirname ("//" +:+ "data" +:+ "/" +:+ "x.pdf")
  = "//" +:+ "data" +:+ "/" +:+ "x.pdf" ∧
  destination Sample.client ("//" +:+ "data" +:+ "/" +:+ "x.pdf")
  = match output_directory Sample.client with
    | Some od => path_join od ".tei.xml"
    | None => ("//" +:+ "data" +:+ "/" +:+ "x.pdf") +:+ "/.tei.xml"
    end.
Proof.
  apply (destination_of_share_like_path Sample.client "data" "x.pdf");
    [reflexivity|discriminate|reflexivity|discriminate].
Defined.

(** ** C6: where the outputs go *)

Lemma path_join_dir_prefix a b :
  slash ∉ chars b → path_join a b = dir_prefix a +:+ b.
Proof.
  intros Hb. unfold path_join, dir_prefix.
  assert (Hstart : startswith_l [slash] (chars b) = false).
  { destruct (chars b) as [|c l]; [done|]. cbn [startswith_l].
    apply not_elem_of_cons in Hb as [Hne _].
    rewrite andb_true_r. apply not_true_is_false.
    intros Heq%Ascii.eqb_eq. congruence. }
  rewrite Hstart. destruct (_ || _); [done|]. by rewrite string_app_assoc.
Qed.

(** The destination, spelled out. *)
Lemma destination_spelled_out self p :
  destination self p
  = dir_prefix (output_dir self p) +:+ stem p +:+ ".tei.xml".
Proof.
  unfold destination, output_dir. fold (stem p).
  destruct (output_directory self);
    apply path_join_dir_prefix, output_name_no_slash.
Qed.

Lemma dir_prefix_shape a :
  rev (chars (dir_prefix a)) = []
  ∨ ∃ t, rev (chars (dir_prefix a)) = slash :: t.
Proof.
  unfold dir_prefix. destruct (bool_decide (a = "")) eqn:Ha; simpl.
  { apply bool_decide_eq_true in Ha as ->. by left. }
  destruct (endswith a "/") eqn:Hend; right.
  - unfold endswith in Hend.
    change (rev (chars "/")) with [slash] in Hend.
    destruct (rev (chars a)) as [|c t]; [done|].
    cbn [startswith_l] in Hend.
    apply andb_true_iff in Hend as [Hc%Ascii.eqb_eq _].
    exists t. by rewrite <- Hc.
  - exists (rev (chars a)). by rewrite chars_app, rev_app_distr.
Qed.

Lemma dir_prefix_name_inj a1 a2 b1 b2 :
  slash ∉ chars b1 → slash ∉ chars b2 →
  dir_prefix a1 +:+ b1 = dir_prefix a2 +:+ b2 →
  b1 = b2 ∧ dir_prefix a1 = dir_prefix a2.
Proof.
  intros H1 H2 Heq.
  assert (Hb : b1 = b2).
  { pose proof (f_equal (λ s, rev (chars s)) Heq) as E. simpl in E.
    rewrite !chars_app, !rev_app_distr in E.
    apply slash_free_front in E;
      [|by apply not_elem_of_rev|by apply not_elem_of_rev
       |apply dir_prefix_shape|apply dir_prefix_shape].
    apply chars_inj. rewrite <- (rev_involutive (chars b1)), E.
    by rewrite rev_involutive. }
  split; [done|]. subst b2. by apply string_app_inv_tail in Heq.
Qed.

Lemma dir_prefix_plain d : plain_directory d = true → dir_prefix d = d +:+ "/".
Proof.
  unfold plain_directory, dir_prefix. intros [Hne Hlast]%andb_true_iff.
  rewrite bool_decide_eq_false_2 by (intros ->; done).
  unfold endswith. change (rev (chars "/")) with [slash].
  destruct (rev (chars d)) as [|c l]; [done|]. cbn [startswith_l orb].
  assert (Hc : Ascii.eqb slash c = false).
  { apply not_true_is_false. intros <-%Ascii.eqb_eq. done. }
  by rewrite Hc.
Qed.

Lemma ntpath_basename_plain d name :
  plain_directory d = true → plain_name name = true →
  ntpath_basename (sep_join d name) = name.
Proof.
  intros Hd Hname. unfold ntpath_basename.
  rewrite ntpath_split_plain by done. apply text_chars.
Qed.

Lemma ntpath_dirname_plain d name :
  plain_directory d = true → plain_name name = true →
  ntpath_dirname (sep_join d name) = d.
Proof.
  intros Hd Hname. unfold ntpath_dirname.
  rewrite ntpath_split_plain by done. apply text_chars.
Qed.

(** Without an output directory too, two inputs of one walk can share a
    destination: two files of one directory whose names differ in the
    extension alone. *)
Example same_stem_same_destination_beside_input :
  ¬ destinations_are_unique_beside_inputs.
Proof.
  intros H.
  apply (H cases "in" Sample.client "in/x.pdf" "in/x.PDF").
  - reflexivity.
  - vm_compute. in_list.
  - vm_compute. in_list.
  - discriminate.
  - reflexivity.
Qed.

(** C6, amended.  The output of an input goes under the output directory,
    or else under [ntpath.dirname] of the input, as "<stem>.tei.xml", the
    stem being [ntpath.basename] of the input without its extension.  Two
    inputs have the same destination exactly when their stems and their
    directory prefixes are equal: with an output directory, exactly when
    their stems are equal, wherever they lie; without one, for ordinary
    paths [d/name], exactly when they lie in the same directory and their
    names agree up to the extension. *)
Theorem destination_same_iff_stem_and_directory :
  (∀ self p,
     destination self p
     = dir_prefix (output_dir self p) +:+ stem p +:+ ".tei.xml") ∧
  (∀ self p q,
     destination self p = destination self q
     ↔ stem p = stem q ∧
       dir_prefix (output_dir self p) = dir_prefix (output_dir self q)) ∧
  (∀ self od p q,
     output_directory self = Some od →
     (destination self p = destination self q ↔ stem p = stem q)) ∧
  (∀ self d1 name1 d2 name2,
     output_directory self = None →
     plain_directory d1 = true → plain_name name1 = true →
     plain_directory d2 = true → plain_name name2 = true →
     (destination self (sep_join d1 name1)
      = destination self (sep_join d2 name2)
      ↔ d1 = d2 ∧ fst (splitext name1) = fst (splitext name2))).
Proof.
  assert (Hiff : ∀ self p q,
     destination self p = destination self q
     ↔ stem p = stem q ∧
       dir_prefix (output_dir self p) = dir_prefix (output_dir self q)).
  { intros self p q. rewrite !destination_spelled_out. split.
    - intros Heq.
      apply dir_prefix_name_inj in Heq as [Hname Hdir];
        [|apply output_name_no_slash..].
      by apply string_app_inv_tail in Hname.
    - by intros [-> ->]. }
  split; [apply destination_spelled_out|]. split; [exact Hiff|]. split.
  - intros self od p q Hod. rewrite Hiff. unfold output_dir. rewrite Hod.
    tauto.
  - intros self d1 name1 d2 name2 Hod Hd1 Hn1 Hd2 Hn2.
    rewrite Hiff. unfold output_dir, stem. rewrite Hod.
    rewrite !ntpath_basename_plain, !ntpath_dirname_plain by done.
    rewrite !dir_prefix_plain by done. split.
    + intros [Hs Hd]. by apply string_app_inv_tail in Hd.
    + by intros [-> ->].
Qed.

Lemma destination_same_iff_stem_and_directory_witness :
  destination Sample.client "in/sub/b.PDF" = "in/sub/b.tei.xml" ∧
  (destination Sample.collecting "twins/a/x.pdf"
   = destination Sample.collecting "twins/b/x.pdf"
   ↔ stem "twins/a/x.pdf" = stem "twins/b/x.pdf") ∧
  (destination Sample.client (sep_join "twins/a" "x.pdf")
   = destination Sample.client (sep_join "twins/b" "x.pdf")
   ↔ "twins/a" = "twins/b" ∧ fst (splitext "x.pdf") = fst (splitext "x.pdf")).
Proof.
  destruct destination_same_iff_stem_and_directory
    as (Hwhere & _ & Hod & Hnone).
  split; [|split].
  - rewrite (Hwhere Sample.client "in/sub/b.PDF"). reflexivity.
  - apply (Hod Sample.collecting "out" "twins/a/x.pdf" "twins/b/x.pdf").
    reflexivity.
  - apply (Hnone Sample.client "twins/a" "x.pdf" "twins/b" "x.pdf");
      reflexivity.
Defined.

(** ** The constructor and the form data *)

(** Construction succeeds exactly when the one GET on
    "<base>/api/isalive" is answered with 200, and then [api_url] is the
    base URL and no service or output directory is set; any other status
    raises [ConnectionError], whatever the keyword arguments. *)
Theorem init_fails_iff_not_alive cfg get_status kwargs :
  (get_status (api_base cfg +:+ "/api/isalive") = 200 ∧
   ∃ self, init cfg get_status kwargs = Ok self ∧
           api_url self = api_base cfg ∧ config self = cfg ∧
           service self = None ∧ output_directory self = None) ∨
  (get_status (api_base cfg +:+ "/api/isalive") ≠ 200 ∧
   init cfg get_status kwargs = Raise ConnectionError).
Proof.
  unfold init, _is_alive. fold (api_base cfg).
  destruct (decide (get_status (api_base cfg +:+ "/api/isalive") = 200))
    as [Hup|Hdown].
  - left. split; [done|]. rewrite bool_decide_eq_true_2 by done. simpl.
    by eexists.
  - right. split; [done|]. by rewrite bool_decide_eq_false_2 by done.
Qed.

(** The form data has one field per enabled option and nothing else:
    "1" for each of the three switches, and the configured coordinates for
    [tei_coordinates]. *)
Theorem prepare_post_data_fields self :
  _prepare_post_data self !! "generate_ids"
  = (if truthy (generate_ids self) then Some "1" else None) ∧
  _prepare_post_data self !! "consolidate_header"
  = (if truthy (consolidate_header self) then Some "1" else None) ∧
  _prepare_post_data self !! "consolidate_citations"
  = (if truthy (consolidate_citations self) then Some "1" else None) ∧
  _prepare_post_data self !! "tei_coordinates"
  = (if truthy (tei_coordinates self)
     then Some (coordinates (config self)) else None) ∧
  dom (_prepare_post_data self)
  ⊆ ({["generate_ids"; "consolidate_header"; "consolidate_citations";
       "tei_coordinates"]} : gset string).
Proof.
  unfold _prepare_post_data.
  destruct (truthy (generate_ids self)), (truthy (consolidate_header self)),
    (truthy (consolidate_citations self)), (truthy (tei_coordinates self));
    (repeat split;
     [repeat first [rewrite lookup_insert_eq | rewrite lookup_insert_ne by done
                   | rewrite lookup_empty]; reflexivity..|]);
    rewrite ?dom_insert_L, dom_empty_L; apply elem_of_subseteq; intros x;
    rewrite ?elem_of_union, ?elem_of_singleton, ?elem_of_empty; tauto.
Qed.

(** ** From the command line to the pools *)

(** Started from the command line, the client's [number_of_processes] is
    the number the block binds [n] to, so every pool of the run has as many
    workers as the client says. *)
Theorem command_line_pool_size_agrees cfg get_status int_of_str args self fs
    sv input od p :
  main_client cfg get_status int_of_str args = Ok self →
  p ∈ snd (snd (process (Some (main_n int_of_str args)) fs self sv input
                  od)) →
  number_of_processes self = PInt (max_workers p).
Proof.
  intros Hself Hp.
  pose proof (process_new_pools (Some (main_n int_of_str args)) fs self sv
                input od) as Hall.
  rewrite Forall_forall in Hall. destruct (Hall p Hp) as ([= <-] & _).
  revert Hself. unfold main_client, init. destruct (negb _); [done|].
  intros [= <-]. simpl. unfold main_options. by rewrite lookup_insert_eq.
Qed.

Lemma command_line_pool_size_agrees_witness :
  number_of_processes Sample.cli_client = PInt 10.
Proof.
  apply (command_line_pool_size_agrees Sample.cfg Sample.up (λ _, None)
           Sample.cli_args Sample.cli_client Sample.fs "processFulltextDocument" "in" None
           {| max_workers := 10;
              pool_self :=
                set_run Sample.cli_client "processFulltextDocument" None;
              submitted := ["in/sub/b.PDF"] |}); [reflexivity|].
  vm_compute. in_list.
Defined.

(** ** Runs that have finished *)



Lemma process_pdf_request_changes_api_url_witness :
  api_url (snd (fst (process_pdf 5 Sample.busy_twice Sample.client "in/a.pdf"
                       Sample.disk)))
  ≠ api_url Sample.client.
Proof.
  destruct (process_pdf 5 Sample.busy_twice Sample.client "in/a.pdf"
              Sample.disk) as [[r self'] w'] eqn:Hrun.
  apply (process_pdf_request_changes_api_url 5 Sample.busy_twice
           Sample.client "in/a.pdf" Sample.disk r self' w' Hrun).
  assert (H : length (posts (trace (snd (process_pdf 5 Sample.busy_twice
                        Sample.client "in/a.pdf" Sample.disk)))) = 3%nat)
    by (vm_compute; reflexivity).
  rewrite Hrun in H. simpl in H. rewrite H. simpl. lia.
Defined.
